(** * AutoMBS: the mock suggestion engine and the note highlighter

    A shallow embedding of the pure helpers of
    [frontend/src/AutoMBSApp.tsx]: [findEvidenceSpans], [mockSuggest]
    (rule catalogue, conflict pass, coverage block, response assembly),
    [collectEvidenceSpans] and the segment computation of
    [HighlightedNote].

    JavaScript strings are sequences of UTF-16 code units; they are
    modelled as lists of integers, and every builtin the source calls
    ([slice], [indexOf], [toLowerCase], [startsWith], [join],
    [RegExp.prototype.test]) is written out in module [JS]. *)

From Stdlib Require Import List ZArith Bool Lia QArith Sorted Permutation.
From Stdlib Require String Ascii.
Import String.StringSyntax.
Import ListNotations.
Open Scope Z_scope.

(* ------------------------------------------------------------------ *)
(** ** JavaScript builtins used by the source                          *)
(* ------------------------------------------------------------------ *)

Module JS.

(** A string value: its UTF-16 code units. *)
Definition jstr := list Z.

(** An ASCII source literal as a string value. *)
Definition js (s : String.string) : jstr :=
  map (fun a => Z.of_N (Ascii.N_of_ascii a)) (String.list_ascii_of_string s).

Arguments js s%_string_scope.

(** [s.length], [a.length]. *)
Definition len {A} (l : list A) : Z := Z.of_nat (List.length l).

(** [a === b] on strings. *)
Fixpoint streq (a b : jstr) : bool :=
  match a, b with
  | [], [] => true
  | x :: a', y :: b' => (x =? y) && streq a' b'
  | _, _ => false
  end.

(** Relative index resolution shared by [String.prototype.slice] and
    [Array.prototype.slice]: a negative index counts from the end, and
    the result is clamped to [0 .. len]. *)
Definition relIndex (n k : Z) : Z :=
  if k <? 0 then Z.max (n + k) 0 else Z.min k n.

(** [l.slice(a, b)]. *)
Definition slice {A} (l : list A) (a b : Z) : list A :=
  let from := relIndex (len l) a in
  let to := relIndex (len l) b in
  firstn (Z.to_nat (to - from)) (skipn (Z.to_nat from) l).

(** [l.slice(a)]. *)
Definition sliceFrom {A} (l : list A) (a : Z) : list A :=
  skipn (Z.to_nat (relIndex (len l) a)) l.

(** [s.startsWith(p)]. *)
Fixpoint startsWith (s p : jstr) {struct p} : bool :=
  match p, s with
  | [], _ => true
  | x :: p', c :: s' => (x =? c) && startsWith s' p'
  | _ :: _, [] => false
  end.

(** [s.indexOf(p)], scanning from position [i]: the least position at
    which [p] occurs, or -1.  The empty pattern occurs at position 0 of
    every string. *)
Fixpoint indexOfFrom (s p : jstr) (i : Z) : Z :=
  if startsWith s p then i
  else match s with
       | [] => -1
       | _ :: s' => indexOfFrom s' p (i + 1)
       end.

Definition indexOf (s p : jstr) : Z := indexOfFrom s p 0.

(** Lower-casing of one code unit.  This is the Unicode default case
    conversion restricted to Basic Latin, Latin-1 Supplement and
    U+0130 (LATIN CAPITAL LETTER I WITH DOT ABOVE), whose lower case is
    the two units U+0069 U+0307; every other unit is left as it is.
    On strings of Basic Latin, Latin-1 and U+0130 units [toLowerCase]
    below is [String.prototype.toLowerCase]; on other strings the
    builtin also lower-cases further letters and treats a final sigma by
    its context.  The theorems that need the agreement restrict their
    strings with [latin1]. *)
Definition lowerUnit (c : Z) : list Z :=
  if (65 <=? c) && (c <=? 90) then [c + 32]
  else if (192 <=? c) && (c <=? 222) && negb (c =? 215) then [c + 32]
  else if c =? 304 then [105; 775]
  else [c].

(** [s.toLowerCase()]. *)
Definition toLowerCase (s : jstr) : jstr := flat_map lowerUnit s.

(** [parts.join(sep)]. *)
Fixpoint join (sep : jstr) (parts : list jstr) : jstr :=
  match parts with
  | [] => []
  | [p] => p
  | p :: rest => p ++ sep ++ join sep rest
  end.

(** Canonicalize of a regular expression with the [i] flag and without
    the [u] flag.  The patterns of the source are Basic Latin only, and
    Canonicalize never sends a unit outside Basic Latin to one inside
    it, so only the Basic Latin fold decides a comparison with a
    pattern character. *)
Definition canonicalize (ignoreCase : bool) (c : Z) : Z :=
  if ignoreCase && (97 <=? c) && (c <=? 122) then c - 32 else c.

(** The literal [p] matches [s] at its first position. *)
Fixpoint matchesHere (ignoreCase : bool) (p s : jstr) {struct p} : bool :=
  match p, s with
  | [], _ => true
  | x :: p', c :: s' =>
      (canonicalize ignoreCase x =? canonicalize ignoreCase c)
      && matchesHere ignoreCase p' s'
  | _ :: _, [] => false
  end.

(** [/a1|a2|.../.test(s)] (with flag [i] when [ignoreCase]) for literal
    alternatives: some alternative matches at some position. *)
Fixpoint testAlt (ignoreCase : bool) (alts : list jstr) (s : jstr) : bool :=
  existsb (fun a => matchesHere ignoreCase a s) alts
  || match s with
     | [] => false
     | _ :: s' => testAlt ignoreCase alts s'
     end.

(** Word characters of [\b] (no [u], no [i] flag). *)
Definition isWordChar (c : Z) : bool :=
  ((97 <=? c) && (c <=? 122)) || ((65 <=? c) && (c <=? 90))
  || ((48 <=? c) && (c <=? 57)) || (c =? 95).

Definition isWord (c : option Z) : bool :=
  match c with Some x => isWordChar x | None => false end.

(** [\b] between the characters [before] and [after] ([None] at either
    end of the input). *)
Definition wordBoundary (before after : option Z) : bool :=
  xorb (isWord before) (isWord after).

(** The alternative [a] matches at the head of [s], whose preceding
    character is [prev], with a word boundary on both sides. *)
Definition boundedHere (prev : option Z) (a s : jstr) : bool :=
  let n := List.length a in
  wordBoundary prev (nth_error s 0)
  && matchesHere false a s
  && wordBoundary (match n with O => prev | S k => nth_error s k end)
                  (nth_error s n).

(** [/\b(a1|a2|...)\b/.test(s)], scanning with the previous character. *)
Fixpoint testBoundedFrom (alts : list jstr) (prev : option Z) (s : jstr) : bool :=
  existsb (fun a => boundedHere prev a s) alts
  || match s with
     | [] => false
     | c :: s' => testBoundedFrom alts (Some c) s'
     end.

Definition testBounded (alts : list jstr) (s : jstr) : bool :=
  testBoundedFrom alts None s.

End JS.

Import JS.

(* ------------------------------------------------------------------ *)
(** ** Types                                                           *)
(* ------------------------------------------------------------------ *)

Record Attachment := mkAttachment {
  name : jstr;
  type : jstr;
  content : jstr
}.

(** [end] is a keyword, the field is [end_]. *)
Record EvidenceSpan := mkSpan {
  text : jstr;
  start : Z;
  end_ : Z;
  field : option jstr
}.

Record Suggestion := mkSuggestion {
  item : jstr;
  description : jstr;
  confidence : Q;
  reasoning : jstr;
  evidence : list EvidenceSpan;
  conflicts : option (list jstr);
  allowedWith : option (list jstr);
  warnings : option (list jstr)
}.

Record CoverageBlock := mkCoverage {
  eligible_suggested : Z;
  eligible_total : Z;
  missed : option (list jstr)
}.

Record AccuracyBlock := mkAccuracy {
  correct : option Z;
  incorrect : option Z
}.

Record Meta := mkMeta {
  prompt_version : option jstr;
  rule_version : option jstr;
  model : option jstr
}.

(** The object [mockSuggest] stores under [raw_debug]. *)
Record RawDebug := mkRawDebug {
  matched_rules : list jstr;
  attachment_names : option (list jstr)
}.

Record ApiSuggestionResponse := mkResponse {
  suggestions : list Suggestion;
  coverage : option CoverageBlock;
  accuracy : option AccuracyBlock;
  meta : option Meta;
  raw_debug : option RawDebug
}.

Inductive Message :=
| UserMessage (id : jstr) (noteText : jstr) (createdAt : jstr)
              (episodeId : option jstr)
| AssistantMessage (id : jstr) (createdAt : jstr)
                   (response : ApiSuggestionResponse) (forMessageId : jstr).

(** An element of the [parts] array of [HighlightedNote]. *)
Record Part := mkPart {
  str : jstr;
  mark : option bool
}.

(* ------------------------------------------------------------------ *)
(** ** findEvidenceSpans                                               *)
(* ------------------------------------------------------------------ *)

Definition noteTextField : jstr := js "noteText".

(** The body of the [forEach] callback: the spans pushed for needle [n]. *)
Definition spansOfNeedle (text lower n : jstr) : list EvidenceSpan :=
  let idx := indexOf lower (toLowerCase n) in
  if idx >=? 0
  then [ mkSpan (slice text idx (idx + len n)) idx (idx + len n)
                (Some noteTextField) ]
  else [].

Definition findEvidenceSpans (text : jstr) (needles : list jstr)
  : list EvidenceSpan :=
  let lower := toLowerCase text in
  flat_map (spansOfNeedle text lower) needles.

(* ------------------------------------------------------------------ *)
(** ** mockSuggest                                                     *)
(* ------------------------------------------------------------------ *)

Record Rule := mkRule {
  test : jstr -> bool;
  build : jstr -> Suggestion
}.

Definition telehealthRule : Rule :=
  mkRule
    (fun s => testAlt true [js "telehealth"; js "video"; js "phone"] s)
    (fun s =>
       mkSuggestion
         (if testBounded [js "20"; js "25"; js "30"] s
          then js "91836" else js "91823")
         (js "Telehealth attendance by a GP (Level B" ++ [226; 8364; 8220]
          ++ js "C)")
         (78 # 100)
         (js "Telehealth modality and consult length suggests Level B/C telehealth.")
         (findEvidenceSpans s
            [js "Telehealth"; js "video"; js "phone"; js "mins"])
         None None
         (Some [js "Confirm patient location and telehealth eligibility."])).

Definition suturingRule : Rule :=
  mkRule
    (fun s => testAlt true [js "suturing"; js "laceration"; js "wound"] s)
    (fun s =>
       mkSuggestion
         (js "30026")
         (js "Repair of superficial laceration (suturing)")
         (82 # 100)
         (js "Simple suturing with local anaesthetic documented.")
         (findEvidenceSpans s
            [js "laceration"; js "suturing"; js "local anaesthetic"; js "nylon"])
         None None
         (Some [js "Ensure length/complexity meet descriptor; same-site rules apply."])).

Definition ecgRule : Rule :=
  mkRule
    (fun s => testAlt true [js "ecg"] s)
    (fun s =>
       mkSuggestion
         (js "11700")
         (js "Electrocardiogram tracing and report")
         (74 # 100)
         (js "ECG performed and interpreted.")
         (findEvidenceSpans s [js "ECG"; js "sinus rhythm"; js "palpitations"])
         None None None).

Definition pathologyRule : Rule :=
  mkRule
    (fun s =>
       testAlt true
         [js "throat swab"; js "FBC"; js "CRP"; js "pathology"; js "culture"] s)
    (fun s =>
       mkSuggestion
         (js "65111")
         (js "Pathology test request (example placeholder)")
         (65 # 100)
         (js "Pathology orders present (throat swab, FBC/CRP).")
         (findEvidenceSpans s
            [js "throat swab"; js "FBC"; js "CRP"; js "culture"])
         None None None).

Definition imagingRule : Rule :=
  mkRule
    (fun s => testAlt true [js "x-ray"; js "imaging"; js "report"] s)
    (fun s =>
       mkSuggestion
         (js "58503")
         (js "Diagnostic imaging service (example)")
         (7 # 10)
         (js "Imaging performed and report available.")
         (findEvidenceSpans s [js "X-ray"; js "imaging"; js "report"])
         None None None).

Definition consultRule : Rule :=
  mkRule
    (fun s =>
       testAlt true
         [js "consult"; js "in-person"; js "mins"; js "review"; js "time";
          js "history"; js "exam"] s)
    (fun s =>
       mkSuggestion
         (if testBounded [js "25"; js "30"] s then js "36" else js "23")
         (js "GP attendance (Level B/C)")
         (68 # 100)
         (js "Consultation documented with history/exam and time noted.")
         (findEvidenceSpans s
            [js "consult"; js "in-person"; js "mins"; js "review";
             js "history"; js "exam"; js "time"])
         None None None).

Definition MOCK_RULES : list Rule :=
  [telehealthRule; suturingRule; ecgRule; pathologyRule; imagingRule;
   consultRule].

(** The scanned text: the note, then each attachment whose type starts
    with "text", its content prefixed by a newline, all joined by
    newlines.  [attachments] is optional in the source. *)
Definition scannedText (noteText : jstr) (attachments : option (list Attachment))
  : jstr :=
  join [10]
    (noteText ::
     match attachments with
     | Some l =>
         map (fun a => [10] ++ content a)
             (filter (fun a => startsWith (type a) (js "text")) l)
     | None => []
     end).

(** [MOCK_RULES.filter(r => r.test(text)).map(r => r.build(text))]. *)
Definition ruleHits (text : jstr) : list Suggestion :=
  map (fun r => build r text) (filter (fun r => test r text) MOCK_RULES).

Definition setConflicts (h : Suggestion) (c : list jstr) : Suggestion :=
  mkSuggestion (item h) (description h) (confidence h) (reasoning h)
               (evidence h) (Some c) (allowedWith h) (warnings h).

(** The callback of the conflict pass. *)
Definition annotate (h : Suggestion) : Suggestion :=
  if streq (item h) (js "23") then setConflicts h [js "36"]
  else if streq (item h) (js "36") then setConflicts h [js "23"]
  else h.

(** The conflict pass: every element of [hits] is a distinct object, so
    the in-place [forEach] update is a [map]. *)
Definition conflictPass (hits : list Suggestion) : list Suggestion :=
  let has23 := existsb (fun h => streq (item h) (js "23")) hits in
  let has36 := existsb (fun h => streq (item h) (js "36")) hits in
  if has23 && has36 then map annotate hits else hits.

Definition missedPool : list jstr :=
  [js "(example) spirometry"; js "(example) care plan"].

(** The coverage block computed from the hit list. *)
Definition coverageOf (hits : list Suggestion) : CoverageBlock :=
  mkCoverage
    (len hits)
    (Z.max (len hits) 3)
    (Some (if len hits >=? 3 then [] else slice missedPool 0 (3 - len hits))).

Definition mockSuggest (noteText : jstr) (attachments : option (list Attachment))
  : ApiSuggestionResponse :=
  let text := scannedText noteText attachments in
  let hits := conflictPass (ruleHits text) in
  mkResponse
    hits
    (Some (coverageOf hits))
    None
    (Some (mkMeta (Some (js "v-mock-1")) (Some (js "mock-2025-07"))
                  (Some (js "mock"))))
    (Some (mkRawDebug (map item hits)
                      (option_map (map name) attachments))).

(* ------------------------------------------------------------------ *)
(** ** collectEvidenceSpans and HighlightedNote                        *)
(* ------------------------------------------------------------------ *)

(** The innermost test of [collectEvidenceSpans].  [start] and [end] are
    numbers by the type of [EvidenceSpan], so the two [typeof] tests
    hold and the field test decides. *)
Definition renderable (e : EvidenceSpan) : bool :=
  match field e with
  | Some f => streq f noteTextField
  | None => false
  end.

Definition collectEvidenceSpans (messages : list Message) : list EvidenceSpan :=
  flat_map
    (fun m =>
       match m with
       | UserMessage _ _ _ _ => []
       | AssistantMessage _ _ response _ =>
           flat_map (fun s => filter renderable (evidence s))
                    (suggestions response)
       end)
    messages.

(** [[...spans].sort((a, b) => a.start - b.start)]: the sort is stable,
    so its result is the one an insertion sort gives that keeps a new
    element in front of the elements with the same start. *)
Fixpoint insertByStart (x : EvidenceSpan) (l : list EvidenceSpan)
  : list EvidenceSpan :=
  match l with
  | [] => [x]
  | y :: l' =>
      if start x <=? start y then x :: y :: l' else y :: insertByStart x l'
  end.

Fixpoint sortByStart (l : list EvidenceSpan) : list EvidenceSpan :=
  match l with
  | [] => []
  | x :: l' => insertByStart x (sortByStart l')
  end.

(** One iteration of the [for ... of ordered] loop on the state
    [(parts, i)]. *)
Definition sweepStep (text : jstr) (st : list Part * Z) (sp : EvidenceSpan)
  : list Part * Z :=
  let '(parts, i) := st in
  let parts1 :=
    if start sp >? i then parts ++ [mkPart (slice text i (start sp)) None]
    else parts in
  let parts2 :=
    parts1 ++ [mkPart (slice text (start sp) (Z.min (end_ sp) (len text)))
                      (Some true)] in
  (parts2, end_ sp).

(** The segments [HighlightedNote] renders for the collected [spans];
    the early return renders the whole text unmarked. *)
Definition noteParts (text : jstr) (spans : list EvidenceSpan) (show : bool)
  : list Part :=
  if negb show || (len spans =? 0) then [mkPart text None]
  else
    let '(parts, i) := fold_left (sweepStep text) (sortByStart spans) ([], 0) in
    if i <? len text then parts ++ [mkPart (sliceFrom text i) None] else parts.

Definition HighlightedNote (text : jstr) (messages : list Message) (show : bool)
  : list Part :=
  noteParts text (collectEvidenceSpans messages) show.

(** The text the rendered segments spell out, in output order. *)
Definition renderedText (parts : list Part) : jstr :=
  concat (map str parts).

(* ------------------------------------------------------------------ *)
(** ** Predicates of the specification                                 *)
(* ------------------------------------------------------------------ *)

(** The data-model invariant of an evidence span over its source text. *)
Definition spanInvariant (source : jstr) (sp : EvidenceSpan) : Prop :=
  0 <= start sp /\ start sp < end_ sp /\ end_ sp <= len source
  /\ text sp = slice source (start sp) (end_ sp).

(** Both offsets of the span lie within the bounds of the text. *)
Definition withinBounds (source : jstr) (sp : EvidenceSpan) : Prop :=
  0 <= start sp <= len source /\ 0 <= end_ sp <= len source.

(** The offsets of the span delimit a non-empty range of the text. *)
Definition properRange (source : jstr) (sp : EvidenceSpan) : Prop :=
  0 <= start sp /\ start sp < end_ sp /\ end_ sp <= len source.

(** Two spans do not overlap: one ends where or before the other starts. *)
Definition disjointSpans (a b : EvidenceSpan) : Prop :=
  end_ a <= start b \/ end_ b <= start a.

(** [p] is a contiguous substring of [s]. *)
Definition occursIn (p s : jstr) : Prop :=
  exists pre post, s = pre ++ p ++ post.

(** No unit of the string is U+0130. *)
Definition dotless (s : jstr) : Prop := Forall (fun c => c <> 304) s.

(** Every unit of the string is a Basic Latin or Latin-1 Supplement
    character.  On such strings [toLowerCase] is the builtin. *)
Definition latin1 (s : jstr) : Prop := Forall (fun c => 0 <= c < 256) s.

(** The list has a suggestion with the given item code. *)
Definition hasItem (code : jstr) (hits : list Suggestion) : Prop :=
  exists h, In h hits /\ item h = code.

(** Both consultation tiers are among the suggestions. *)
Definition bothTiers (hits : list Suggestion) : Prop :=
  hasItem (js "23") hits /\ hasItem (js "36") hits.

(** What the conflict pass owes a suggestion [h] of the result [hits]. *)
Definition conflictsSettled (hits : list Suggestion) (h : Suggestion) : Prop :=
  (bothTiers hits ->
     (item h = js "23" -> conflicts h = Some [js "36"])
     /\ (item h = js "36" -> conflicts h = Some [js "23"]))
  /\ (~ bothTiers hits -> conflicts h = None).

(** The span [findEvidenceSpans] pushes for an empty needle. *)
Definition emptySpan : EvidenceSpan := mkSpan [] 0 0 (Some noteTextField).

(** Each span ends where or before every later span of the list starts. *)
Definition chained (l : list EvidenceSpan) : Prop :=
  StronglySorted (fun a b => end_ a <= start b) l.

Definition scenarioA : jstr := js "Telehealth 18 mins via video.".

(** The note of the second entry of [SAMPLE_EPISODES]. *)
Definition procedureNote : jstr :=
  js "23yo female laceration R forearm 2.5cm from kitchen knife today. In-person consult 12 mins. Procedure: local anaesthetic infiltration, simple suturing (3 nylon 4-0), tetanus up-to-date. ECG performed for palpitations earlier this week"
  ++ [226; 8364; 8221]
  ++ js "normal sinus rhythm. Dx: simple laceration, palpitations (self-resolved). Wound care instructions provided.".

(** Two hits built by the consult rule, one of each tier. *)
Definition tier23 : Suggestion := build consultRule (js "consult 12 mins").
Definition tier36 : Suggestion := build consultRule (js "consult 25 mins").
Definition bothTierHits : list Suggestion := [tier23; tier36].

(** The session after one suggestion turn on scenario A. *)
Definition sessionA : list Message :=
  [UserMessage (js "u1") scenarioA (js "t0") None;
   AssistantMessage (js "a1") (js "t1") (mockSuggest scenarioA None) (js "u1")].

(* ------------------------------------------------------------------ *)
(** ** slashJoin                                                       *)
(* ------------------------------------------------------------------ *)

(** [s.replace(/\/$/, "")]: the pattern matches a slash only at the end
    of the input, so the replacement drops one trailing slash. *)
Fixpoint dropTrailingSlash (s : jstr) : jstr :=
  match s with
  | [] => []
  | [c] => if c =? 47 then [] else [c]
  | c :: s' => c :: dropTrailingSlash s'
  end.

(** The empty string is the only falsy [base]. *)
Definition slashJoin (base path : jstr) : jstr :=
  match base with
  | [] => path
  | _ :: _ =>
      dropTrailingSlash base
      ++ (if startsWith path (js "/") then path else js "/" ++ path)
  end.

(* ------------------------------------------------------------------ *)
(** ** Further predicates                                              *)
(* ------------------------------------------------------------------ *)

(** [l] is [r] with some elements left out, the others in order. *)
Inductive subseq {A : Type} : list A -> list A -> Prop :=
| subseq_nil : subseq [] []
| subseq_skip (x : A) (l r : list A) : subseq l r -> subseq l (x :: r)
| subseq_keep (x : A) (l r : list A) : subseq l r -> subseq (x :: l) (x :: r).

(** The test of [mockSuggest] on an attachment: its type starts with
    "text". *)
Definition textual (a : Attachment) : bool := startsWith (type a) (js "text").

(** The parts rendered inside [<mark>]. *)
Definition marked (parts : list Part) : list Part :=
  filter (fun p => match mark p with Some true => true | _ => false end) parts.

(** Every assistant turn of the session carries the suggestions of the
    mock engine for the note [note] without attachments. *)
Definition mockTurnsOn (note : jstr) (messages : list Message) : Prop :=
  Forall (fun m => match m with
                   | UserMessage _ _ _ _ => True
                   | AssistantMessage _ _ response _ =>
                       suggestions response
                       = suggestions (mockSuggest note None)
                   end) messages.

(** All evidence spans of a response, suggestion by suggestion. *)
Definition allEvidence (r : ApiSuggestionResponse) : list EvidenceSpan :=
  flat_map evidence (suggestions r).

(* ------------------------------------------------------------------ *)
(** ** Episode management                                              *)
(* ------------------------------------------------------------------ *)

(** The episode handlers of the component [AutoMBSApp] (the variant with
    rename, duplicate and delete).  Each handler is modelled by the
    component state after its updates are applied; an updater function
    sees the state the handler started from.  What a handler takes from
    the environment is an argument: the string [uid()] returns, the
    string of the current date, the answer to [window.confirm]. *)
Module Episodes.

(** White space and line terminators, the units [trim] strips. *)
Definition isTrimSpace (c : Z) : bool :=
  ((9 <=? c) && (c <=? 13)) || (c =? 32) || (c =? 160) || (c =? 5760)
  || ((8192 <=? c) && (c <=? 8202)) || (c =? 8232) || (c =? 8233)
  || (c =? 8239) || (c =? 8287) || (c =? 12288) || (c =? 65279).

Fixpoint trimStart (s : jstr) : jstr :=
  match s with
  | [] => []
  | c :: s' => if isTrimSpace c then trimStart s' else s
  end.

(** [s.trim()]. *)
Definition trim (s : jstr) : jstr := rev (trimStart (rev (trimStart s))).

(** [l.filter((_, i) => i !== idx)], counting from [k]. *)
Fixpoint dropIndexFrom {A} (k idx : Z) (l : list A) : list A :=
  match l with
  | [] => []
  | x :: l' =>
      if k =? idx then dropIndexFrom (k + 1) idx l'
      else x :: dropIndexFrom (k + 1) idx l'
  end.

Section WithAny.

(** The values of the untyped field [structured], their truthiness, and
    the copy [JSON.parse(JSON.stringify(v))]. *)
Context {any : Type}.
Variable truthy : any -> bool.
Variable jsonCopy : any -> any.

Record Episode := mkEpisode {
  id : jstr;
  title : jstr;
  noteText : jstr;
  attachments : option (list Attachment);
  structured : option any
}.

(** The state the handlers read and write. *)
Record AppState := mkState {
  episodes : list Episode;
  activeEpisodeId : jstr;
  messages : list Message;
  noteDraft : jstr;
  titleDraft : jstr;
  editingTitle : bool
}.

(** [episodes.find((e) => e.id === i)]. *)
Definition findEpisode (eps : list Episode) (i : jstr) : option Episode :=
  find (fun e => streq (id e) i) eps.

(** The memoised [activeEpisode]; [None] is [undefined], which the
    component dereferences when it renders. *)
Definition activeEpisode (st : AppState) : option Episode :=
  findEpisode (episodes st) (activeEpisodeId st).

(** [arr.map((e) => e.id === i ? f(e) : e)]. *)
Definition updateWhere (i : jstr) (f : Episode -> Episode) (arr : list Episode)
  : list Episode :=
  map (fun e => if streq (id e) i then f e else e) arr.

Definition withEpisodes (st : AppState) (eps : list Episode) : AppState :=
  mkState eps (activeEpisodeId st) (messages st) (noteDraft st)
          (titleDraft st) (editingTitle st).

(** The effect that follows a change of the active episode, its title or
    its note: both drafts are reloaded. *)
Definition syncDrafts (st : AppState) : option AppState :=
  match activeEpisode st with
  | Some e =>
      Some (mkState (episodes st) (activeEpisodeId st) (messages st)
                    (noteText e) (title e) (editingTitle st))
  | None => None
  end.

Definition saveTitle (st : AppState) : AppState :=
  let t := trim (titleDraft st) in
  match t with
  | [] => st
  | _ :: _ =>
      mkState
        (updateWhere (activeEpisodeId st)
           (fun e => mkEpisode (id e) t (noteText e) (attachments e)
                               (structured e))
           (episodes st))
        (activeEpisodeId st) (messages st) (noteDraft st) (titleDraft st)
        false
  end.

Definition onSaveEpisode (st : AppState) : AppState :=
  withEpisodes st
    (updateWhere (activeEpisodeId st)
       (fun e => mkEpisode (id e) (title e) (noteDraft st) (attachments e)
                           (structured e))
       (episodes st)).

Definition removeAttachment (idx : Z) (st : AppState) : AppState :=
  withEpisodes st
    (updateWhere (activeEpisodeId st)
       (fun e =>
          mkEpisode (id e) (title e) (noteText e)
            (Some (dropIndexFrom 0 idx
                     (match attachments e with Some l => l | None => [] end)))
            (structured e))
       (episodes st)).

(** The click on an entry of the episode list. *)
Definition selectEpisode (ep : Episode) (st : AppState) : AppState :=
  mkState (episodes st) (id ep) [] (noteText ep) (titleDraft st)
          (editingTitle st).

(** The episode [newEpisode] and [deleteEpisode] create. *)
Definition blankEpisode (u now : jstr) : Episode :=
  mkEpisode (js "ep-" ++ u) (js "Untitled " ++ now) [] (Some []) None.

Definition newEpisode (u now : jstr) (st : AppState) : AppState :=
  mkState (blankEpisode u now :: episodes st) (js "ep-" ++ u) [] []
          (titleDraft st) (editingTitle st).

Definition duplicateEpisode (u : jstr) (st : AppState) : AppState :=
  match activeEpisode st with
  | None => st
  | Some source =>
      let copy :=
        mkEpisode (js "ep-" ++ u) (js "Copy of " ++ title source)
          (noteText source)
          (Some (match attachments source with Some l => l | None => [] end))
          (match structured source with
           | Some v => if truthy v then Some (jsonCopy v) else None
           | None => None
           end) in
      mkState (copy :: episodes st) (js "ep-" ++ u) [] (noteText copy)
              (titleDraft st) (editingTitle st)
  end.

Definition deleteEpisode (epId : jstr) (ok : bool) (u now : jstr) (st : AppState)
  : AppState :=
  match findEpisode (episodes st) epId with
  | None => st
  | Some _ =>
      if negb ok then st
      else
        let remaining :=
          filter (fun e => negb (streq (id e) epId)) (episodes st) in
        if streq epId (activeEpisodeId st) then
          match remaining with
          | first :: _ =>
              mkState remaining (id first) [] (noteText first)
                      (titleDraft st) (editingTitle st)
          | [] =>
              mkState [blankEpisode u now] (js "ep-" ++ u) [] []
                      (titleDraft st) (editingTitle st)
          end
        else withEpisodes st remaining
  end.

(** One user action on the episodes. *)
Inductive step : AppState -> AppState -> Prop :=
| step_select st ep : In ep (episodes st) -> step st (selectEpisode ep st)
| step_saveTitle st : step st (saveTitle st)
| step_save st : step st (onSaveEpisode st)
| step_remove st idx : step st (removeAttachment idx st)
| step_new st u now : step st (newEpisode u now st)
| step_duplicate st u : step st (duplicateEpisode u st)
| step_delete st epId ok u now : step st (deleteEpisode epId ok u now st).

(** The active episode is among the episodes. *)
Definition activeListed (st : AppState) : Prop :=
  exists e, In e (episodes st) /\ id e = activeEpisodeId st.

End WithAny.

(** The initial state of the component: the sample episode of this
    variant, active, its note and title loaded; no [structured] value. *)
Definition sampleEpisode : @Episode unit :=
  mkEpisode (js "ep-gp-procedure-ecg") (js "GP Level B + Suturing + ECG")
    (js "23yo female laceration R forearm 2.5cm from kitchen knife today. In-person consult 12 mins. Procedure: local anaesthetic infiltration, simple suturing (3 nylon 4-0), tetanus up-to-date. ECG performed for palpitations earlier this week"
     ++ [8212]
     ++ js "normal sinus rhythm. Dx: simple laceration, palpitations (self-resolved). Wound care instructions provided.")
    None None.

(** The sample episode with two uploaded images. *)
Definition imagedEpisode : @Episode unit :=
  mkEpisode (id sampleEpisode) (title sampleEpisode) (noteText sampleEpisode)
    (Some [mkAttachment (js "wound.png") (js "image/png") (js "data:image/png;base64,AAAA");
           mkAttachment (js "ecg.png") (js "image/png") (js "data:image/png;base64,BBBB")])
    None.

Definition imagedState : @AppState unit :=
  mkState [imagedEpisode] (id imagedEpisode) [] (noteText imagedEpisode)
          (title imagedEpisode) false.

Definition initialState : @AppState unit :=
  mkState [sampleEpisode] (id sampleEpisode) [] (noteText sampleEpisode)
          (title sampleEpisode) false.

End Episodes.

(* ------------------------------------------------------------------ *)
(** ** Facts about the builtins                                        *)
(* ------------------------------------------------------------------ *)

Lemma len_nonneg {A} (l : list A) : 0 <= len l.
Proof. unfold len. lia. Qed.

Lemma len_app {A} (l1 l2 : list A) : len (l1 ++ l2) = len l1 + len l2.
Proof. unfold len. rewrite length_app. lia. Qed.

Lemma relIndex_in_range (n k : Z) : 0 <= k <= n -> relIndex n k = k.
Proof.
  intros H. unfold relIndex.
  destruct (k <? 0) eqn:E; [apply Z.ltb_lt in E; lia | lia].
Qed.

Lemma slice_in_range {A} (l : list A) (a b : Z) :
  0 <= a <= len l -> 0 <= b <= len l ->
  slice l a b = firstn (Z.to_nat (b - a)) (skipn (Z.to_nat a) l).
Proof.
  intros Ha Hb. unfold slice. now rewrite !relIndex_in_range.
Qed.

Lemma slice_empty {A} (l : list A) (a : Z) : slice l a a = [].
Proof. unfold slice. now rewrite Z.sub_diag. Qed.

Lemma firstn_skipn_firstn {A} (l : list A) (n m : nat) :
  firstn n l ++ firstn m (skipn n l) = firstn (n + m) l.
Proof.
  revert l. induction n as [|n IH]; intros l; simpl.
  - reflexivity.
  - destruct l as [|x l]; simpl.
    + now rewrite firstn_nil.
    + now rewrite IH.
Qed.

(** A prefix followed by the slice that starts where it ends is the
    longer prefix. *)
Lemma firstn_slice {A} (l : list A) (a b : Z) :
  0 <= a <= b -> b <= len l ->
  firstn (Z.to_nat a) l ++ slice l a b = firstn (Z.to_nat b) l.
Proof.
  intros Hab Hb. rewrite slice_in_range by lia.
  rewrite firstn_skipn_firstn. f_equal. lia.
Qed.

Lemma firstn_sliceFrom {A} (l : list A) (a : Z) :
  0 <= a <= len l -> firstn (Z.to_nat a) l ++ sliceFrom l a = l.
Proof.
  intros Ha. unfold sliceFrom. rewrite relIndex_in_range by lia.
  apply firstn_skipn.
Qed.

Lemma streq_eq (a b : jstr) : streq a b = true <-> a = b.
Proof.
  revert b. induction a as [|x a IH]; intros [|y b]; simpl; try easy.
  rewrite andb_true_iff, Z.eqb_eq, IH. split.
  - intros [-> ->]. reflexivity.
  - intros H. injection H as -> ->. now split.
Qed.

Lemma startsWith_length (s p : jstr) :
  startsWith s p = true -> len p <= len s.
Proof.
  revert s. induction p as [|x p IH]; intros s H.
  - apply len_nonneg.
  - destruct s as [|c s]; simpl in H; [discriminate|].
    apply andb_true_iff in H as [_ H]. apply IH in H.
    unfold len in *. simpl. lia.
Qed.

Lemma startsWith_firstn (s p : jstr) :
  startsWith s p = true <-> firstn (List.length p) s = p.
Proof.
  revert s. induction p as [|x p IH]; intros s; simpl.
  - easy.
  - destruct s as [|c s]; simpl; [easy|].
    rewrite andb_true_iff, Z.eqb_eq, IH. split.
    + intros [-> ->]. reflexivity.
    + intros H. injection H as -> H. now split.
Qed.

(** What a hit of [indexOf] says: the result is a position of [s] at
    which [p] occurs, and [p] occurs at no earlier position. *)
Lemma indexOfFrom_found (s p : jstr) (i : Z) :
  0 <= i -> indexOfFrom s p i <> -1 ->
  let k := Z.to_nat (indexOfFrom s p i - i) in
  i <= indexOfFrom s p i
  /\ indexOfFrom s p i - i + len p <= len s
  /\ startsWith (skipn k s) p = true
  /\ (forall j, (j < k)%nat -> startsWith (skipn j s) p = false).
Proof.
  revert i. induction s as [|c s IH]; intros i Hi Hr; cbn zeta.
  - simpl in *. destruct (startsWith [] p) eqn:E; [|congruence].
    rewrite Z.sub_diag. simpl. repeat split; try lia.
    + apply startsWith_length in E. lia.
    + exact E.
  - cbn [indexOfFrom] in *. destruct (startsWith (c :: s) p) eqn:E.
    + rewrite Z.sub_diag. simpl. repeat split; try lia.
      * apply startsWith_length in E. lia.
      * exact E.
    + specialize (IH (i + 1) ltac:(lia) Hr). cbn zeta in IH.
      destruct IH as (H1 & H2 & H3 & H4).
      replace (Z.to_nat (indexOfFrom s p (i + 1) - i))
        with (S (Z.to_nat (indexOfFrom s p (i + 1) - (i + 1)))) by lia.
      repeat split.
      * lia.
      * unfold len in *. simpl List.length. lia.
      * exact H3.
      * intros [|j] Hj; [exact E|]. simpl. apply H4. lia.
Qed.

(** What a miss says: [p] occurs nowhere in [s]. *)
Lemma indexOfFrom_none (s p : jstr) (i : Z) :
  0 <= i -> indexOfFrom s p i = -1 ->
  forall j, startsWith (skipn j s) p = false.
Proof.
  revert i. induction s as [|c s IH]; intros i Hi Hr j.
  - simpl in Hr. destruct (startsWith [] p) eqn:E; [lia|].
    now rewrite skipn_nil.
  - cbn [indexOfFrom] in Hr. destruct (startsWith (c :: s) p) eqn:E; [lia|].
    destruct j as [|j]; [exact E|]. simpl. apply (IH (i + 1)); [lia|exact Hr].
Qed.

Lemma indexOfFrom_range (s p : jstr) (i : Z) :
  0 <= i -> indexOfFrom s p i = -1 \/ i <= indexOfFrom s p i.
Proof.
  intros Hi. destruct (Z.eq_dec (indexOfFrom s p i) (-1)) as [E|E].
  - now left.
  - right. now apply indexOfFrom_found.
Qed.

Lemma indexOf_empty_needle (s : jstr) : indexOf s [] = 0.
Proof. unfold indexOf. destruct s; reflexivity. Qed.

Lemma lowerUnit_nonempty (c : Z) : (1 <= List.length (lowerUnit c))%nat.
Proof.
  unfold lowerUnit.
  repeat match goal with |- context [if ?b then _ else _] => destruct b end;
    simpl; lia.
Qed.

(** Lower-casing never shortens a string. *)
Lemma toLowerCase_length (s : jstr) : len s <= len (toLowerCase s).
Proof.
  unfold len, toLowerCase. induction s as [|c s IH]; simpl; [lia|].
  rewrite length_app. pose proof (lowerUnit_nonempty c). lia.
Qed.

(** The builtins on small inputs. *)
Example slice_examples :
  slice (js "abcd") 1 3 = js "bc"
  /\ slice (js "abcd") 3 1 = js ""
  /\ slice (js "abcd") (-2) 10 = js "cd"
  /\ sliceFrom (js "abcd") 1 = js "bcd"
  /\ slice [1; 2] 0 3 = [1; 2].
Proof. repeat split. Qed.

Example indexOf_examples :
  indexOf (js "a mins b mins") (js "mins") = 2
  /\ indexOf (js "abc") (js "") = 0
  /\ indexOf (js "") (js "") = 0
  /\ indexOf (js "abc") (js "cd") = -1.
Proof. repeat split. Qed.

Example toLowerCase_examples :
  toLowerCase (js "X-Ray 25") = js "x-ray 25"
  /\ toLowerCase [304] = [105; 775]
  /\ toLowerCase [201; 215] = [233; 215].
Proof. repeat split. Qed.

Example testAlt_examples :
  testAlt true [js "x-ray"; js "imaging"] (js "Ankle X-RAY today") = true
  /\ testAlt true [js "ecg"] (js "e c g") = false
  /\ testAlt true [js "FBC"] (js "fbc/crp") = true
  /\ testAlt false [js "FBC"] (js "fbc/crp") = false.
Proof. repeat split. Qed.

Example testBounded_examples :
  testBounded [js "20"; js "25"; js "30"] (js "time ~25 mins") = true
  /\ testBounded [js "20"; js "25"; js "30"] (js "30") = true
  /\ testBounded [js "20"; js "25"; js "30"] (js "125 mins") = false
  /\ testBounded [js "20"; js "25"; js "30"] (js "25mins") = false
  /\ testBounded [js "20"; js "25"; js "30"] (js "2.5cm") = false
  /\ testBounded [js "25"; js "30"] (js "seen 20 mins") = false.
Proof. repeat split. Qed.

(* ------------------------------------------------------------------ *)
(** ** findEvidenceSpans                                               *)
(* ------------------------------------------------------------------ *)

Lemma spansOfNeedle_cases (text lower n : jstr) :
  (indexOf lower (toLowerCase n) = -1 /\ spansOfNeedle text lower n = [])
  \/ (0 <= indexOf lower (toLowerCase n)
      /\ spansOfNeedle text lower n =
           [mkSpan (slice text (indexOf lower (toLowerCase n))
                          (indexOf lower (toLowerCase n) + len n))
                   (indexOf lower (toLowerCase n))
                   (indexOf lower (toLowerCase n) + len n)
                   (Some noteTextField)]).
Proof.
  unfold spansOfNeedle.
  destruct (indexOfFrom_range lower (toLowerCase n) 0 ltac:(lia)) as [E|E];
    fold (indexOf lower (toLowerCase n)) in E.
  - left. rewrite E. now split.
  - right. split; [exact E|].
    destruct (indexOf lower (toLowerCase n) >=? 0) eqn:G; [reflexivity|].
    rewrite Z.geb_leb in G. apply Z.leb_gt in G. lia.
Qed.

Lemma spansOfNeedle_length (text lower n : jstr) :
  (List.length (spansOfNeedle text lower n) <= 1)%nat.
Proof.
  destruct (spansOfNeedle_cases text lower n) as [[_ ->]|[_ ->]]; simpl; lia.
Qed.

Lemma spansOfNeedle_empty (text lower : jstr) :
  spansOfNeedle text lower [] = [emptySpan].
Proof.
  unfold spansOfNeedle. change (toLowerCase []) with (@nil Z).
  rewrite indexOf_empty_needle. simpl. now rewrite slice_empty.
Qed.

(** A span of a non-empty needle lies inside the text as soon as
    lower-casing did not lengthen the text. *)
Lemma spansOfNeedle_invariant (text n : jstr) (sp : EvidenceSpan) :
  n <> [] ->
  len (toLowerCase text) = len text ->
  In sp (spansOfNeedle text (toLowerCase text) n) ->
  spanInvariant text sp.
Proof.
  intros Hn Hlen Hin.
  destruct (spansOfNeedle_cases text (toLowerCase text) n)
    as [[_ E]|[Hidx E]]; rewrite E in Hin; simpl in Hin; [tauto|].
  destruct Hin as [<-|[]].
  assert (Hne : indexOf (toLowerCase text) (toLowerCase n) <> -1) by lia.
  apply (indexOfFrom_found _ _ 0 ltac:(lia)) in Hne. cbn zeta in Hne.
  fold (indexOf (toLowerCase text) (toLowerCase n)) in Hne.
  destruct Hne as (_ & Hb & _).
  pose proof (toLowerCase_length n) as Hl.
  assert (0 < len n).
  { destruct n; [congruence|]. unfold len. simpl. lia. }
  unfold spanInvariant. simpl. repeat split; lia.
Qed.

(** C4, as the code has it: an empty needle matches at offset 0 of every
    text and yields the zero-length span there, alone or among other
    needles; and [findEvidenceSpans] is total, every needle giving at
    most one span. *)
Theorem findEvidenceSpans_empty_needle (text : jstr) :
  findEvidenceSpans text [[]] = [emptySpan]
  /\ (forall needles, In [] needles ->
        In emptySpan (findEvidenceSpans text needles))
  /\ (forall needles,
        (List.length (findEvidenceSpans text needles)
         <= List.length needles)%nat).
Proof.
  unfold findEvidenceSpans. split; [|split].
  - simpl. now rewrite spansOfNeedle_empty.
  - intros needles Hin. apply in_flat_map. exists []. split; [exact Hin|].
    rewrite spansOfNeedle_empty. now left.
  - intros needles. induction needles as [|n needles IH]; simpl; [lia|].
    rewrite length_app.
    pose proof (spansOfNeedle_length text (toLowerCase text) n). lia.
Qed.

(** C4 fails as stated: the empty needle does emit a span. *)
Lemma empty_needle_emits_span :
  findEvidenceSpans (js "Telehealth") [js ""] <> [].
Proof. vm_compute. discriminate. Qed.

(** C5, amended: every span emitted for non-empty needles, on a text
    that lower-casing leaves at its length, satisfies the data-model
    invariant. *)
Theorem findEvidenceSpans_invariant
  (text : jstr) (needles : list jstr) (sp : EvidenceSpan) :
  Forall (fun n => n <> []) needles ->
  len (toLowerCase text) = len text ->
  In sp (findEvidenceSpans text needles) ->
  spanInvariant text sp.
Proof.
  intros Hne Hlen Hin. unfold findEvidenceSpans in Hin.
  apply in_flat_map in Hin as (n & Hn & Hsp).
  rewrite Forall_forall in Hne.
  now apply (spansOfNeedle_invariant text n sp (Hne n Hn)).
Qed.

Lemma findEvidenceSpans_invariant_witness :
  spanInvariant scenarioA (mkSpan (js "video") 23 28 (Some noteTextField)).
Proof.
  apply (findEvidenceSpans_invariant scenarioA [js "Telehealth"; js "video"]).
  - repeat constructor; discriminate.
  - reflexivity.
  - vm_compute. right. left. reflexivity.
Defined.

(** C5 fails as stated: the span of an empty needle has [start = end]. *)
Lemma empty_needle_breaks_invariant :
  ~ (forall sp, In sp (findEvidenceSpans scenarioA [js ""]) ->
                spanInvariant scenarioA sp).
Proof.
  intros H. specialize (H emptySpan).
  destruct H as (_ & H & _).
  - vm_compute. left. reflexivity.
  - simpl in H. lia.
Qed.

(** *** The single-needle contract away from U+0130 *)

Lemma startsWith_app (p post : jstr) : startsWith (p ++ post) p = true.
Proof.
  induction p as [|x p IH]; simpl; [reflexivity|].
  now rewrite Z.eqb_refl, IH.
Qed.

Lemma occursIn_indexOf (p s : jstr) : occursIn p s <-> indexOf s p <> -1.
Proof.
  unfold indexOf. split.
  - intros (pre & post & ->) E.
    pose proof (indexOfFrom_none _ _ 0 ltac:(lia) E (List.length pre)) as H.
    rewrite skipn_app, skipn_all, Nat.sub_diag in H. simpl in H.
    now rewrite startsWith_app in H.
  - intros E. apply (indexOfFrom_found _ _ 0 ltac:(lia)) in E.
    cbn zeta in E. destruct E as (_ & _ & H & _).
    apply startsWith_firstn in H.
    set (k := Z.to_nat (indexOfFrom s p 0 - 0)) in *.
    exists (firstn k s), (skipn (List.length p) (skipn k s)).
    rewrite <- H at 1. now rewrite firstn_skipn, firstn_skipn.
Qed.

Lemma lowerUnit_single (c : Z) : c <> 304 -> exists d, lowerUnit c = [d].
Proof.
  intros Hc. unfold lowerUnit.
  destruct ((65 <=? c) && (c <=? 90)); [eauto|].
  destruct ((192 <=? c) && (c <=? 222) && negb (c =? 215)); [eauto|].
  destruct (c =? 304) eqn:E; [apply Z.eqb_eq in E; contradiction|eauto].
Qed.

Lemma toLowerCase_firstn (s : jstr) (k : nat) :
  dotless s -> toLowerCase (firstn k s) = firstn k (toLowerCase s).
Proof.
  unfold toLowerCase. intros Hs. revert k.
  induction Hs as [|c s Hc Hs IH]; intros [|k]; simpl; try reflexivity.
  destruct (lowerUnit_single c Hc) as [d ->]. simpl. now rewrite IH.
Qed.

Lemma toLowerCase_skipn (s : jstr) (k : nat) :
  dotless s -> toLowerCase (skipn k s) = skipn k (toLowerCase s).
Proof.
  unfold toLowerCase. intros Hs. revert k.
  induction Hs as [|c s Hc Hs IH]; intros [|k]; simpl; try reflexivity.
  destruct (lowerUnit_single c Hc) as [d ->]. simpl. now rewrite IH.
Qed.

Lemma toLowerCase_dotless_length (s : jstr) :
  dotless s -> len (toLowerCase s) = len s.
Proof.
  unfold len, toLowerCase. intros Hs.
  induction Hs as [|c s Hc Hs IH]; simpl; [reflexivity|].
  destruct (lowerUnit_single c Hc) as [d ->]. simpl. lia.
Qed.

Lemma dotless_skipn (s : jstr) (k : nat) : dotless s -> dotless (skipn k s).
Proof.
  unfold dotless. intros H. revert k.
  induction H as [|c s Hc Hs IH]; intros [|k]; simpl; try constructor; auto.
Qed.

(** Where the lower-casing is unit by unit, as [toLowerCase] of module
    [JS] is on strings without U+0130, [findEvidenceSpans] with one
    needle does what the single-needle contract says: a hit at the first
    occurrence of the lower-cased needle in the lower-cased text, in the
    casing of the text, and nothing when there is no occurrence. *)
Lemma findEvidenceSpans_single_dotless (note needle : jstr) :
  dotless note -> dotless needle ->
  (occursIn (toLowerCase needle) (toLowerCase note) ->
   exists S,
     findEvidenceSpans note [needle] = [S]
     /\ slice note (start S) (end_ S) = text S
     /\ toLowerCase (text S) = toLowerCase needle
     /\ (forall pre post,
           toLowerCase note = pre ++ toLowerCase needle ++ post ->
           start S <= len pre))
  /\ (~ occursIn (toLowerCase needle) (toLowerCase note) ->
      findEvidenceSpans note [needle] = []).
Proof.
  intros Ht Hn. unfold findEvidenceSpans. cbn [flat_map]. rewrite app_nil_r.
  pose proof (toLowerCase_dotless_length note Ht) as Lt.
  pose proof (toLowerCase_dotless_length needle Hn) as Ln.
  destruct (spansOfNeedle_cases note (toLowerCase note) needle)
    as [[E ->]|[Hidx ->]].
  - split; [|reflexivity]. intros Hocc. apply occursIn_indexOf in Hocc.
    contradiction.
  - split; [|intros Hno; exfalso; apply Hno; apply occursIn_indexOf; lia].
    intros _. eexists. split; [reflexivity|]. cbn [start end_ text].
    set (idx := indexOf (toLowerCase note) (toLowerCase needle)) in *.
    assert (Hne : idx <> -1) by lia.
    apply (indexOfFrom_found _ _ 0 ltac:(lia)) in Hne. cbn zeta in Hne.
    fold (indexOf (toLowerCase note) (toLowerCase needle)) in Hne.
    fold idx in Hne. rewrite Z.sub_0_r in Hne.
    destruct Hne as (_ & Hb & Hs & Hmin).
    pose proof (len_nonneg needle).
    split; [reflexivity|]. split.
    + rewrite slice_in_range by lia.
      rewrite toLowerCase_firstn by now apply dotless_skipn.
      rewrite toLowerCase_skipn by exact Ht.
      apply startsWith_firstn in Hs.
      etransitivity; [|exact Hs]. f_equal. unfold len in *. lia.
    + intros pre post Hpre.
      destruct (Z_lt_le_dec (len pre) idx) as [Hlt|Hle]; [|exact Hle].
      exfalso. specialize (Hmin (List.length pre)).
      rewrite Hpre, skipn_app, skipn_all, Nat.sub_diag in Hmin.
      simpl in Hmin. rewrite startsWith_app in Hmin.
      unfold len in Hlt. discriminate Hmin. lia.
Qed.

(** C6 at the text U+0130 "x" and the needle "x": the lower-cased text
    has three units with "x" at offset 2, and that offset is used on
    the two-unit original text, so the span is empty and ends outside
    the text, although the lower-cased needle occurs in the lower-cased
    text. *)
Theorem findEvidenceSpans_dotted_capital_I :
  occursIn (toLowerCase (js "x")) (toLowerCase [304; 120])
  /\ findEvidenceSpans [304; 120] [js "x"]
     = [mkSpan [] 2 3 (Some noteTextField)]
  /\ toLowerCase [] <> toLowerCase (js "x")
  /\ len [304; 120] = 2.
Proof.
  split; [|split; [|split]].
  - exists [105; 775], []. reflexivity.
  - reflexivity.
  - discriminate.
  - reflexivity.
Qed.

(* ------------------------------------------------------------------ *)
(** ** HighlightedNote                                                 *)
(* ------------------------------------------------------------------ *)

Lemma renderedText_snoc (parts : list Part) (p : Part) :
  renderedText (parts ++ [p]) = renderedText parts ++ str p.
Proof.
  unfold renderedText. rewrite map_app, concat_app. simpl.
  now rewrite app_nil_r.
Qed.

Section StableSort.

Variable P : EvidenceSpan -> Prop.

Lemma Forall_insertByStart (x : EvidenceSpan) (l : list EvidenceSpan) :
  Forall P (insertByStart x l) <-> P x /\ Forall P l.
Proof.
  induction l as [|y l IH]; simpl.
  - split; [intros H; inversion H; now split | intros [H _]; now constructor].
  - destruct (start x <=? start y).
    + split; [intros H; inversion H; now split | intros [H1 H2]; now constructor].
    + split.
      * intros H. inversion H as [|? ? Hy Hr]; subst.
        apply IH in Hr as [Hx Hl]. split; [exact Hx|now constructor].
      * intros [Hx Hl]. inversion Hl as [|? ? Hy Hr]; subst.
        constructor; [exact Hy|]. apply IH. now split.
Qed.

Lemma Forall_sortByStart (l : list EvidenceSpan) :
  Forall P (sortByStart l) <-> Forall P l.
Proof.
  induction l as [|x l IH]; simpl; [tauto|].
  rewrite Forall_insertByStart, IH. split.
  - intros [H1 H2]. now constructor.
  - intros H. inversion H. now split.
Qed.

End StableSort.

Section Sweep.

Variable text : jstr.

(** Inserting a proper span that overlaps none of a chained list
    keeps the list chained. *)
Lemma insertByStart_chained (x : EvidenceSpan) (l : list EvidenceSpan) :
  properRange text x ->
  Forall (properRange text) l ->
  Forall (disjointSpans x) l ->
  chained l ->
  chained (insertByStart x l).
Proof.
  unfold chained. intros Hx. induction l as [|y l IH]; intros Hp Hd Hc; simpl.
  - constructor; constructor.
  - inversion Hp as [|? ? Hy Hp']; subst.
    inversion Hd as [|? ? Hxy Hd']; subst.
    inversion Hc as [|? ? Hc' Hyl]; subst.
    unfold properRange, disjointSpans in *.
    destruct (start x <=? start y) eqn:E.
    + apply Z.leb_le in E. constructor; [exact Hc|].
      constructor; [lia|].
      rewrite Forall_forall in Hyl |- *. intros z Hz.
      specialize (Hyl z Hz). lia.
    + apply Z.leb_gt in E. constructor; [now apply IH|].
      apply Forall_insertByStart. split; [lia|exact Hyl].
Qed.

Lemma sortByStart_chained (l : list EvidenceSpan) :
  Forall (properRange text) l ->
  ForallOrdPairs disjointSpans l ->
  chained (sortByStart l).
Proof.
  induction l as [|x l IH]; intros Hp Hd; simpl.
  - constructor.
  - inversion Hp; subst. inversion Hd; subst.
    apply insertByStart_chained; trivial.
    + now apply Forall_sortByStart.
    + now apply Forall_sortByStart.
    + now apply IH.
Qed.

(** The loop invariant: the parts emitted so far spell out the text up
    to the cursor, as long as the remaining spans are chained and start
    at or after the cursor. *)
Lemma sweep_prefix (ordered : list EvidenceSpan) :
  forall (parts : list Part) (i : Z),
    0 <= i <= len text ->
    renderedText parts = firstn (Z.to_nat i) text ->
    Forall (properRange text) ordered ->
    chained ordered ->
    Forall (fun sp => i <= start sp) ordered ->
    renderedText (fst (fold_left (sweepStep text) ordered (parts, i)))
    = firstn (Z.to_nat (snd (fold_left (sweepStep text) ordered (parts, i))))
             text
    /\ 0 <= snd (fold_left (sweepStep text) ordered (parts, i)) <= len text.
Proof.
  induction ordered as [|sp rest IH]; intros parts i Hi Hr Hp Hc Hs.
  - simpl. now split.
  - inversion Hp as [|? ? Hsp Hp']; subst.
    inversion Hc as [|? ? Hc' Hnext]; subst.
    inversion Hs as [|? ? Hle Hs']; subst.
    unfold properRange in Hsp.
    cbn [fold_left]. unfold sweepStep at 2 4 6. cbn iota beta.
    apply IH; trivial; [lia|].
    rewrite renderedText_snoc. cbn [str].
    rewrite Z.min_l by lia.
    rewrite <- (firstn_slice text (start sp) (end_ sp)) by lia.
    f_equal.
    destruct (start sp >? i) eqn:E.
    + rewrite renderedText_snoc, Hr. cbn [str].
      apply firstn_slice; lia.
    + rewrite Z.gtb_ltb in E. apply Z.ltb_ge in E.
      rewrite Hr. f_equal. lia.
Qed.

End Sweep.

(** C3, amended: for spans that each delimit a non-empty range of the
    note text and that do not overlap one another, the rendered segments
    spell out the note text exactly. *)
Theorem noteParts_reproduces_text
  (text : jstr) (spans : list EvidenceSpan) (show : bool) :
  Forall (properRange text) spans ->
  ForallOrdPairs disjointSpans spans ->
  renderedText (noteParts text spans show) = text.
Proof.
  intros Hp Hd. unfold noteParts.
  destruct (negb show || (len spans =? 0)).
  - unfold renderedText. simpl. apply app_nil_r.
  - pose proof (sweep_prefix text (sortByStart spans) [] 0) as H.
    destruct (fold_left (sweepStep text) (sortByStart spans) ([], 0))
      as [parts i].
    cbn [fst snd] in H.
    destruct H as [Hr Hi].
    + pose proof (len_nonneg text). lia.
    + reflexivity.
    + now apply Forall_sortByStart.
    + now apply (sortByStart_chained text).
    + apply Forall_sortByStart. revert Hp. apply Forall_impl.
      unfold properRange. intros sp H. lia.
    + destruct (i <? len text) eqn:E.
      * rewrite renderedText_snoc, Hr. cbn [str].
        apply firstn_sliceFrom. lia.
      * apply Z.ltb_ge in E. rewrite Hr. apply firstn_all2.
        unfold len in *. lia.
Qed.

Lemma noteParts_reproduces_text_witness :
  renderedText
    (noteParts scenarioA
       [mkSpan (js "video") 23 28 (Some noteTextField);
        mkSpan (js "Telehealth") 0 10 (Some noteTextField)] true)
  = scenarioA.
Proof.
  apply noteParts_reproduces_text.
  - constructor; [|constructor; [|constructor]];
      unfold properRange; simpl; vm_compute; intuition congruence.
  - constructor; [|constructor; constructor].
    constructor; [|constructor]. right. simpl. lia.
Defined.

(** C3 fails as stated: after one suggestion turn on scenario A the
    collected spans are all within bounds, "mins" is cited by two
    suggestions, and the rendered segments spell it twice. *)
Lemma repeated_span_repeats_text :
  Forall (withinBounds scenarioA) (collectEvidenceSpans sessionA)
  /\ renderedText (HighlightedNote scenarioA sessionA true)
     = js "Telehealth 18 minsmins via video."
  /\ renderedText (noteParts scenarioA (collectEvidenceSpans sessionA) true)
     <> scenarioA.
Proof.
  split; [|split].
  - vm_compute. repeat constructor; discriminate.
  - reflexivity.
  - vm_compute. discriminate.
Qed.

(* ------------------------------------------------------------------ *)
(** ** mockSuggest: rules and conflict pass                            *)
(* ------------------------------------------------------------------ *)

Lemma hasItem_existsb (code : jstr) (hits : list Suggestion) :
  existsb (fun h => streq (item h) code) hits = true <-> hasItem code hits.
Proof.
  unfold hasItem. rewrite existsb_exists.
  split; intros (h & Hin & H); exists h; (split; [exact Hin|]);
    now apply streq_eq.
Qed.

Lemma item_annotate (h : Suggestion) : item (annotate h) = item h.
Proof.
  unfold annotate.
  destruct (streq (item h) (js "23")); [reflexivity|].
  destruct (streq (item h) (js "36")); reflexivity.
Qed.

Lemma conflictPass_items (hits : list Suggestion) :
  map item (conflictPass hits) = map item hits.
Proof.
  unfold conflictPass.
  destruct (existsb _ hits && existsb _ hits); [|reflexivity].
  rewrite map_map. apply map_ext. apply item_annotate.
Qed.

Lemma hasItem_map (code : jstr) (hits : list Suggestion) :
  hasItem code hits <-> In code (map item hits).
Proof.
  unfold hasItem. rewrite in_map_iff.
  split; intros (h & H1 & H2); exists h; tauto.
Qed.

Lemma hasItem_conflictPass (code : jstr) (hits : list Suggestion) :
  hasItem code (conflictPass hits) <-> hasItem code hits.
Proof. now rewrite !hasItem_map, conflictPass_items. Qed.

Lemma bothTiers_conflictPass (hits : list Suggestion) :
  bothTiers (conflictPass hits) <-> bothTiers hits.
Proof. unfold bothTiers. now rewrite !hasItem_conflictPass. Qed.

(** With both tiers present every hit is annotated. *)
Lemma conflictPass_both (hits : list Suggestion) :
  bothTiers hits -> conflictPass hits = map annotate hits.
Proof.
  intros [H23 H36]. unfold conflictPass.
  apply hasItem_existsb in H23. apply hasItem_existsb in H36.
  now rewrite H23, H36.
Qed.

(** Otherwise the pass leaves the hits as they are. *)
Lemma conflictPass_not_both (hits : list Suggestion) :
  ~ bothTiers hits -> conflictPass hits = hits.
Proof.
  intros Hn. unfold conflictPass.
  destruct (existsb (fun h => streq (item h) (js "23")) hits) eqn:E23;
    [|reflexivity].
  destruct (existsb (fun h => streq (item h) (js "36")) hits) eqn:E36;
    [|reflexivity].
  exfalso. apply Hn. split; now apply hasItem_existsb.
Qed.

Lemma conflictPass_settled (hits : list Suggestion) (h : Suggestion) :
  Forall (fun x => conflicts x = None) hits ->
  In h (conflictPass hits) ->
  conflictsSettled (conflictPass hits) h.
Proof.
  intros Hnone Hin. unfold conflictsSettled.
  rewrite bothTiers_conflictPass. split.
  - intros Hboth. rewrite (conflictPass_both hits Hboth) in Hin.
    apply in_map_iff in Hin as (h0 & <- & _).
    rewrite item_annotate. unfold annotate. split; intros E; rewrite E.
    + reflexivity.
    + reflexivity.
  - intros Hn. rewrite (conflictPass_not_both hits Hn) in Hin.
    rewrite Forall_forall in Hnone. now apply Hnone.
Qed.

(** The item code each rule builds. *)
Lemma rule_item (r : Rule) (s : jstr) :
  In r MOCK_RULES ->
  (r = consultRule /\ (item (build r s) = js "23" \/ item (build r s) = js "36"))
  \/ In (item (build r s))
        [js "91836"; js "91823"; js "30026"; js "11700"; js "65111"; js "58503"].
Proof.
  unfold MOCK_RULES. intros [<-|[<-|[<-|[<-|[<-|[<-|[]]]]]]].
  - right. cbn [build telehealthRule item].
    destruct (testBounded _ s); simpl; tauto.
  - right. simpl. tauto.
  - right. simpl. tauto.
  - right. simpl. tauto.
  - right. simpl. tauto.
  - left. split; [reflexivity|]. cbn [build consultRule item].
    destruct (testBounded _ s); tauto.
Qed.

(** Only the consult rule builds a consultation tier. *)
Lemma tier_from_consultRule (r : Rule) (s : jstr) :
  In r MOCK_RULES ->
  item (build r s) = js "23" \/ item (build r s) = js "36" ->
  r = consultRule.
Proof.
  intros Hr Hitem. destruct (rule_item r s Hr) as [[E _]|Hin]; [exact E|].
  exfalso. simpl in Hin.
  destruct Hitem as [E|E]; rewrite E in Hin;
    repeat (destruct Hin as [Hin|Hin]; [discriminate Hin|]); exact Hin.
Qed.

(** The consult rule builds exactly one of the two tiers. *)
Lemma consultRule_one_tier (s : jstr) :
  (item (build consultRule s) = js "23" /\ item (build consultRule s) <> js "36")
  \/ (item (build consultRule s) = js "36" /\ item (build consultRule s) <> js "23").
Proof.
  cbn [build consultRule item].
  destruct (testBounded _ s); [right|left]; (split; [reflexivity|discriminate]).
Qed.

Lemma ruleHits_In (text : jstr) (h : Suggestion) :
  In h (ruleHits text) <->
  exists r, In r MOCK_RULES /\ test r text = true /\ h = build r text.
Proof.
  unfold ruleHits. rewrite in_map_iff. split.
  - intros (r & <- & Hr). apply filter_In in Hr as [Hr Ht]. now exists r.
  - intros (r & Hr & Ht & ->). exists r. split; [reflexivity|].
    apply filter_In. now split.
Qed.

Lemma ruleHits_not_both (text : jstr) : ~ bothTiers (ruleHits text).
Proof.
  intros [(h1 & Hin1 & E1) (h2 & Hin2 & E2)].
  apply ruleHits_In in Hin1 as (r1 & Hr1 & _ & ->).
  apply ruleHits_In in Hin2 as (r2 & Hr2 & _ & ->).
  assert (r1 = consultRule) as -> by (apply (tier_from_consultRule r1 text); tauto).
  assert (r2 = consultRule) as -> by (apply (tier_from_consultRule r2 text); tauto).
  destruct (consultRule_one_tier text) as [[_ H]|[_ H]]; congruence.
Qed.

Lemma ruleHits_conflicts (text : jstr) :
  Forall (fun h => conflicts h = None) (ruleHits text).
Proof.
  apply Forall_forall. intros h Hin.
  apply ruleHits_In in Hin as (r & Hr & _ & ->).
  unfold MOCK_RULES in Hr.
  destruct Hr as [<-|[<-|[<-|[<-|[<-|[<-|[]]]]]]]; reflexivity.
Qed.

Lemma mockSuggest_suggestions
  (noteText : jstr) (attachments : option (list Attachment)) :
  suggestions (mockSuggest noteText attachments)
  = conflictPass (ruleHits (scannedText noteText attachments)).
Proof. reflexivity. Qed.

(** The mock engine on the second sample episode: suturing, ECG and
    the lower consult tier, nothing missed. *)
Example procedureNote_response :
  map item (suggestions (mockSuggest procedureNote None))
  = [js "30026"; js "11700"; js "23"]
  /\ coverage (mockSuggest procedureNote None) = Some (mkCoverage 3 3 (Some [])).
Proof. split; reflexivity. Qed.

(** C1, as the code has it: on scenario A, with no attachments (absent
    or empty), two rules fire.  The telehealth rule gives item "91823"
    with the spans of "Telehealth", "video" and "mins", and the consult
    rule, triggered by "mins", gives item "23". *)
Theorem scenarioA_suggestions :
  mockSuggest scenarioA (Some []) =
    mkResponse (suggestions (mockSuggest scenarioA None))
               (coverage (mockSuggest scenarioA None)) None
               (meta (mockSuggest scenarioA None))
               (Some (mkRawDebug [js "91823"; js "23"] (Some [])))
  /\ exists s1 s2,
       suggestions (mockSuggest scenarioA None) = [s1; s2]
       /\ item s1 = js "91823"
       /\ evidence s1
          = findEvidenceSpans scenarioA
              [js "Telehealth"; js "video"; js "phone"; js "mins"]
       /\ evidence s1
          = [mkSpan (js "Telehealth") 0 10 (Some noteTextField);
             mkSpan (js "video") 23 28 (Some noteTextField);
             mkSpan (js "mins") 14 18 (Some noteTextField)]
       /\ item s2 = js "23"
       /\ evidence s2 = [mkSpan (js "mins") 14 18 (Some noteTextField)]
       /\ conflicts s1 = None /\ conflicts s2 = None.
Proof.
  split; [reflexivity|].
  exists (build telehealthRule scenarioA), (build consultRule scenarioA).
  repeat split; reflexivity.
Qed.

(** C1 fails as stated: scenario A yields two suggestions, not one. *)
Lemma scenarioA_not_single :
  List.length (suggestions (mockSuggest scenarioA None)) <> 1%nat.
Proof. vm_compute. discriminate. Qed.

(** C2, as the code has it: the missed labels are the first
    [3 - count] labels of the two-label pool; with no suggestion the
    total is 3 and the missed list is the whole pool, two labels; with
    four suggestions the total is 4 and nothing is missed. *)
Theorem coverageOf_missed :
  (forall hits,
      eligible_suggested (coverageOf hits) = len hits
      /\ eligible_total (coverageOf hits) = Z.max (len hits) 3
      /\ missed (coverageOf hits)
         = Some (firstn (Z.to_nat (3 - len hits)) missedPool))
  /\ (eligible_total (coverageOf []) = 3
      /\ missed (coverageOf []) = Some missedPool
      /\ List.length missedPool = 2%nat)
  /\ (forall a b c d,
        eligible_total (coverageOf [a; b; c; d]) = 4
        /\ missed (coverageOf [a; b; c; d]) = Some [])
  /\ (forall noteText attachments,
        coverage (mockSuggest noteText attachments)
        = Some (coverageOf (suggestions (mockSuggest noteText attachments)))).
Proof.
  split; [|split; [|split]].
  - intros hits. split; [reflexivity|]. split; [reflexivity|].
    unfold coverageOf. cbn [missed]. f_equal.
    pose proof (len_nonneg hits) as Hn.
    destruct (len hits >=? 3) eqn:E.
    + rewrite Z.geb_leb in E. apply Z.leb_le in E.
      replace (Z.to_nat (3 - len hits)) with O by lia. reflexivity.
    + rewrite Z.geb_leb in E. apply Z.leb_gt in E.
      assert (H : len hits = 0 \/ len hits = 1 \/ len hits = 2) by lia.
      destruct H as [->|[->| ->]]; reflexivity.
  - repeat split.
  - intros a b c d. split; reflexivity.
  - reflexivity.
Qed.

(** C2 fails as stated: with no suggestion the missed list has two
    labels, not three. *)
Lemma coverageOf_empty_missed_two :
  ~ (exists m, missed (coverageOf []) = Some m /\ List.length m = 3%nat).
Proof.
  intros (m & H & Hl). vm_compute in H. injection H as <-. discriminate Hl.
Qed.

(** C7: a suggestion of the conflict pass carries the other tier in
    [conflicts] when both "23" and "36" are in the result, and no
    [conflicts] otherwise; first for the pass on any hits built without
    conflicts, then for the result of [mockSuggest] on every document. *)
Theorem mockSuggest_conflicts :
  (forall hits h,
      Forall (fun x => conflicts x = None) hits ->
      In h (conflictPass hits) ->
      conflictsSettled (conflictPass hits) h)
  /\ (forall noteText attachments h,
        In h (suggestions (mockSuggest noteText attachments)) ->
        conflictsSettled (suggestions (mockSuggest noteText attachments)) h).
Proof.
  split.
  - apply conflictPass_settled.
  - intros noteText attachments h. rewrite mockSuggest_suggestions.
    apply conflictPass_settled. apply ruleHits_conflicts.
Qed.

Lemma mockSuggest_conflicts_witness :
  bothTiers (conflictPass bothTierHits)
  /\ conflicts (annotate tier23) = Some [js "36"]
  /\ conflicts (annotate tier36) = Some [js "23"]
  /\ conflicts (build consultRule scenarioA) = None.
Proof.
  assert (Hboth : bothTiers (conflictPass bothTierHits)).
  { split; [exists (annotate tier23)|exists (annotate tier36)];
      (split; [vm_compute; tauto|reflexivity]). }
  assert (Hnone : Forall (fun x => conflicts x = None) bothTierHits).
  { repeat constructor. }
  split; [exact Hboth|]. split; [|split].
  - apply (proj1 mockSuggest_conflicts bothTierHits (annotate tier23) Hnone).
    + vm_compute. tauto.
    + exact Hboth.
    + reflexivity.
  - apply (proj1 mockSuggest_conflicts bothTierHits (annotate tier36) Hnone).
    + vm_compute. tauto.
    + exact Hboth.
    + reflexivity.
  - apply (proj2 mockSuggest_conflicts scenarioA None
             (build consultRule scenarioA)).
    + vm_compute. tauto.
    + intros [_ (h & Hin & E)]. vm_compute in Hin.
      destruct Hin as [<-|[<-|[]]]; discriminate E.
Defined.

(** C8: every response of [mockSuggest] carries the suggestion list, a
    coverage block, a meta object with [rule_version] set, and no
    accuracy block. *)
Theorem mockSuggest_response_shape
  (noteText : jstr) (attachments : option (list Attachment)) :
  suggestions (mockSuggest noteText attachments)
  = conflictPass (ruleHits (scannedText noteText attachments))
  /\ coverage (mockSuggest noteText attachments)
     = Some (coverageOf (suggestions (mockSuggest noteText attachments)))
  /\ (exists m, meta (mockSuggest noteText attachments) = Some m
                /\ rule_version m = Some (js "mock-2025-07"))
  /\ accuracy (mockSuggest noteText attachments) = None.
Proof.
  repeat split. eexists. split; reflexivity.
Qed.

(** The response is decided by the scanned text and the attachment
    names: types, and contents of attachments that are not scanned, do
    not reach it. *)
Lemma mockSuggest_scanned_only
  (noteText1 noteText2 : jstr) (attachments1 attachments2 : option (list Attachment)) :
  scannedText noteText1 attachments1 = scannedText noteText2 attachments2 ->
  option_map (map name) attachments1 = option_map (map name) attachments2 ->
  mockSuggest noteText1 attachments1 = mockSuggest noteText2 attachments2.
Proof. unfold mockSuggest. intros -> ->. reflexivity. Qed.

(** C10: the result of [mockSuggest] never has both "23" and "36": only
    the consult rule builds either code, and it builds exactly one; so
    the conflict pass returns the hits as built and no suggestion has
    [conflicts] set. *)
Theorem mockSuggest_never_both_tiers
  (noteText : jstr) (attachments : option (list Attachment)) :
  ~ bothTiers (suggestions (mockSuggest noteText attachments))
  /\ (forall r s, In r MOCK_RULES ->
        item (build r s) = js "23" \/ item (build r s) = js "36" ->
        r = consultRule)
  /\ (forall s,
        (item (build consultRule s) = js "23"
         /\ item (build consultRule s) <> js "36")
        \/ (item (build consultRule s) = js "36"
            /\ item (build consultRule s) <> js "23"))
  /\ suggestions (mockSuggest noteText attachments)
     = ruleHits (scannedText noteText attachments)
  /\ Forall (fun h => conflicts h = None)
            (suggestions (mockSuggest noteText attachments)).
Proof.
  rewrite mockSuggest_suggestions.
  pose proof (ruleHits_not_both (scannedText noteText attachments)) as Hn.
  rewrite (conflictPass_not_both _ Hn).
  split; [exact Hn|]. split; [exact tier_from_consultRule|].
  split; [exact consultRule_one_tier|]. split; [reflexivity|].
  apply ruleHits_conflicts.
Qed.

(* ------------------------------------------------------------------ *)
(** ** Triggers and evidence                                           *)
(* ------------------------------------------------------------------ *)

(** Two units that a case-insensitive pattern identifies have the same
    lower case. *)
Lemma lowerUnit_capital (x : Z) : 65 <= x <= 90 -> lowerUnit x = [x + 32].
Proof.
  intros H. unfold lowerUnit.
  destruct (Z.leb_spec 65 x); [|lia]. destruct (Z.leb_spec x 90); [|lia].
  reflexivity.
Qed.

Lemma lowerUnit_small (x : Z) : 97 <= x <= 122 -> lowerUnit x = [x].
Proof.
  intros H. unfold lowerUnit.
  destruct (Z.leb_spec x 90); [lia|]. rewrite andb_false_r.
  destruct (Z.leb_spec 192 x); [lia|]. cbn [andb].
  destruct (Z.eqb_spec x 304); [lia|reflexivity].
Qed.

Lemma canonicalize_cases (x c : Z) :
  canonicalize true x = canonicalize true c ->
  x = c \/ (65 <= x <= 90 /\ c = x + 32) \/ (65 <= c <= 90 /\ x = c + 32).
Proof.
  unfold canonicalize. cbn [andb].
  destruct (Z.leb_spec 97 x); destruct (Z.leb_spec x 122);
    destruct (Z.leb_spec 97 c); destruct (Z.leb_spec c 122);
    cbn [andb]; intros ?; lia.
Qed.

Lemma canonicalize_lowerUnit (x c : Z) :
  canonicalize true x = canonicalize true c -> lowerUnit x = lowerUnit c.
Proof.
  intros H.
  destruct (canonicalize_cases x c H) as [->|[[Hx ->]|[Hc ->]]].
  - reflexivity.
  - rewrite (lowerUnit_capital x Hx). symmetry. apply lowerUnit_small. lia.
  - rewrite (lowerUnit_capital c Hc). apply lowerUnit_small. lia.
Qed.

Lemma startsWith_app_same (a t p : jstr) :
  startsWith (a ++ t) (a ++ p) = startsWith t p.
Proof.
  induction a as [|x a IH]; simpl; [reflexivity|].
  now rewrite Z.eqb_refl, IH.
Qed.

Lemma toLowerCase_app (a b : jstr) :
  toLowerCase (a ++ b) = toLowerCase a ++ toLowerCase b.
Proof. unfold toLowerCase. apply flat_map_app. Qed.

(** A case-insensitive match of a literal at the head of [t] shows in
    the lower-cased strings as a prefix. *)
Lemma matchesHere_lower (p t : jstr) :
  matchesHere true p t = true ->
  startsWith (toLowerCase t) (toLowerCase p) = true.
Proof.
  revert t. induction p as [|x p IH]; intros t H.
  - reflexivity.
  - destruct t as [|c t]; simpl in H; [discriminate|].
    apply andb_true_iff in H as [Hc H]. apply Z.eqb_eq in Hc.
    change (toLowerCase (c :: t)) with (lowerUnit c ++ toLowerCase t).
    change (toLowerCase (x :: p)) with (lowerUnit x ++ toLowerCase p).
    rewrite (canonicalize_lowerUnit x c Hc), startsWith_app_same.
    now apply IH.
Qed.

Lemma startsWith_occursIn (s p : jstr) :
  startsWith s p = true -> occursIn p s.
Proof.
  intros H. apply startsWith_firstn in H.
  exists [], (skipn (List.length p) s). simpl.
  rewrite <- (firstn_skipn (List.length p) s) at 1. now rewrite H.
Qed.

Lemma occursIn_app_l (p s pre : jstr) : occursIn p s -> occursIn p (pre ++ s).
Proof.
  intros (a & b & ->). exists (pre ++ a), b. now rewrite <- app_assoc.
Qed.

Lemma occursIn_app_r (p s post : jstr) : occursIn p s -> occursIn p (s ++ post).
Proof.
  intros (a & b & ->). exists a, (b ++ post). now rewrite <- !app_assoc.
Qed.

(** A trigger of a case-insensitive rule pattern occurs, lower-cased, in
    the lower-cased text. *)
Lemma testAlt_occurs (alts : list jstr) (s : jstr) :
  testAlt true alts s = true ->
  exists a, In a alts /\ occursIn (toLowerCase a) (toLowerCase s).
Proof.
  induction s as [|c s IH]; cbn [testAlt]; intros H;
    apply orb_true_iff in H as [H|H]; try discriminate.
  - apply existsb_exists in H as (a & Ha & Hm). exists a. split; [exact Ha|].
    now apply startsWith_occursIn, matchesHere_lower.
  - apply existsb_exists in H as (a & Ha & Hm). exists a. split; [exact Ha|].
    now apply startsWith_occursIn, matchesHere_lower.
  - destruct (IH H) as (a & Ha & Ho). exists a. split; [exact Ha|].
    change (toLowerCase (c :: s)) with (lowerUnit c ++ toLowerCase s).
    now apply occursIn_app_l.
Qed.

Lemma findEvidenceSpans_found (text n : jstr) (needles : list jstr) :
  In n needles ->
  occursIn (toLowerCase n) (toLowerCase text) ->
  findEvidenceSpans text needles <> [].
Proof.
  intros Hin Hocc E. apply occursIn_indexOf in Hocc.
  unfold findEvidenceSpans in E.
  assert (Hn : spansOfNeedle text (toLowerCase text) n = []).
  { destruct (spansOfNeedle text (toLowerCase text) n) as [|sp l] eqn:En;
      [reflexivity|].
    assert (Hsp : In sp (flat_map (spansOfNeedle text (toLowerCase text)) needles)).
    { apply in_flat_map. exists n. split; [exact Hin|]. rewrite En. now left. }
    rewrite E in Hsp. destruct Hsp. }
  destruct (spansOfNeedle_cases text (toLowerCase text) n) as [[E1 _]|[_ E2]].
  - contradiction.
  - rewrite E2 in Hn. discriminate.
Qed.

(** Every trigger of these four rules is, up to case, one of the rule's
    evidence needles, so the rule never fires without evidence. *)
Lemma trigger_gives_evidence (r : Rule) (s : jstr) :
  In r [telehealthRule; ecgRule; imagingRule; consultRule] ->
  test r s = true ->
  evidence (build r s) <> [].
Proof.
  intros Hr Ht. simpl in Hr.
  destruct Hr as [<-|[<-|[<-|[<-|[]]]]]; cbn [test build evidence
    telehealthRule ecgRule imagingRule consultRule] in *;
    apply testAlt_occurs in Ht as (a & Ha & Ho); simpl in Ha;
    repeat (destruct Ha as [<-|Ha];
            [ match type of Ho with
              | occursIn (toLowerCase ?a) _ =>
                  first
                    [ apply (findEvidenceSpans_found s (js "Telehealth"));
                      [simpl; tauto|exact Ho]
                    | apply (findEvidenceSpans_found s (js "ECG"));
                      [simpl; tauto|exact Ho]
                    | apply (findEvidenceSpans_found s (js "X-ray"));
                      [simpl; tauto|exact Ho]
                    | apply (findEvidenceSpans_found s a);
                      [simpl; tauto|exact Ho] ]
              end
            | ]);
    destruct Ha.
Qed.

Lemma mockSuggest_hits
  (noteText : jstr) (attachments : option (list Attachment)) :
  suggestions (mockSuggest noteText attachments)
  = ruleHits (scannedText noteText attachments).
Proof.
  rewrite mockSuggest_suggestions. apply conflictPass_not_both.
  apply ruleHits_not_both.
Qed.

(** X1: a suggestion of the telehealth, ECG, imaging or consult rule
    always cites evidence: whatever trigger fired the rule is also one
    of its needles.  (The suturing and pathology rules have the triggers
    "wound" and "pathology" without a needle.) *)
Theorem mockSuggest_evidence_present
  (noteText : jstr) (attachments : option (list Attachment)) (h : Suggestion) :
  In h (suggestions (mockSuggest noteText attachments)) ->
  item h <> js "30026" ->
  item h <> js "65111" ->
  evidence h <> [].
Proof.
  rewrite mockSuggest_hits. intros Hin H1 H2.
  apply ruleHits_In in Hin as (r & Hr & Ht & ->).
  unfold MOCK_RULES in Hr.
  destruct Hr as [<-|[<-|[<-|[<-|[<-|[<-|[]]]]]]];
    try (exfalso; apply H1; reflexivity);
    try (exfalso; apply H2; reflexivity);
    (apply trigger_gives_evidence; [simpl; tauto|exact Ht]).
Qed.

Lemma mockSuggest_evidence_present_witness :
  evidence (build consultRule scenarioA) <> [].
Proof.
  apply (mockSuggest_evidence_present scenarioA None).
  - vm_compute. tauto.
  - discriminate.
  - discriminate.
Defined.

(** The suturing rule fired by "wound" alone has no evidence. *)
Example suturing_without_evidence :
  map (fun h => (item h, evidence h))
      (suggestions (mockSuggest (js "wound dressed") None))
  = [(js "30026", [])].
Proof. reflexivity. Qed.

(** More alternatives match wherever fewer do. *)
Lemma testBoundedFrom_incl (alts alts' : list jstr) (prev : option Z) (s : jstr) :
  incl alts alts' ->
  testBoundedFrom alts prev s = true ->
  testBoundedFrom alts' prev s = true.
Proof.
  intros Hincl. revert prev.
  induction s as [|c s IH]; intros prev; cbn [testBoundedFrom]; intros H;
    apply orb_true_iff in H as [H|H]; try discriminate; apply orb_true_iff.
  - left. apply existsb_exists in H as (a & Ha & Hb).
    apply existsb_exists. exists a. split; [now apply Hincl|exact Hb].
  - left. apply existsb_exists in H as (a & Ha & Hb).
    apply existsb_exists. exists a. split; [now apply Hincl|exact Hb].
  - right. now apply IH.
Qed.

(** X2: the two tier decisions agree on a text: the result never holds
    the lower telehealth tier "91823" together with the higher consult
    tier "36", because a standalone 25 or 30 also raises the telehealth
    tier. *)
Theorem mockSuggest_tiers_agree
  (noteText : jstr) (attachments : option (list Attachment)) :
  ~ (hasItem (js "91823") (suggestions (mockSuggest noteText attachments))
     /\ hasItem (js "36") (suggestions (mockSuggest noteText attachments))).
Proof.
  rewrite mockSuggest_hits.
  set (text := scannedText noteText attachments).
  intros [(h1 & Hin1 & E1) (h2 & Hin2 & E2)].
  apply ruleHits_In in Hin1 as (r1 & Hr1 & _ & ->).
  apply ruleHits_In in Hin2 as (r2 & Hr2 & _ & ->).
  assert (Hlow : testBounded [js "20"; js "25"; js "30"] text = false).
  { unfold MOCK_RULES in Hr1.
    destruct Hr1 as [<-|[<-|[<-|[<-|[<-|[<-|[]]]]]]];
      cbn [build item telehealthRule suturingRule ecgRule pathologyRule
           imagingRule consultRule] in E1; try discriminate E1.
    - destruct (testBounded [js "20"; js "25"; js "30"] text);
        [discriminate E1|reflexivity].
    - destruct (testBounded [js "25"; js "30"] text); discriminate E1. }
  assert (Hhigh : testBounded [js "25"; js "30"] text = true).
  { unfold MOCK_RULES in Hr2.
    destruct Hr2 as [<-|[<-|[<-|[<-|[<-|[<-|[]]]]]]];
      cbn [build item telehealthRule suturingRule ecgRule pathologyRule
           imagingRule consultRule] in E2; try discriminate E2.
    - destruct (testBounded [js "20"; js "25"; js "30"] text); discriminate E2.
    - destruct (testBounded [js "25"; js "30"] text);
        [reflexivity|discriminate E2]. }
  unfold testBounded in *.
  apply (testBoundedFrom_incl _ [js "20"; js "25"; js "30"]) in Hhigh.
  - congruence.
  - intros a Ha. now right.
Qed.

(** *** Order and distinctness of the items *)

Lemma subseq_refl {A} (l : list A) : subseq l l.
Proof. induction l; now constructor. Qed.

Lemma subseq_filter {A} (f : A -> bool) (l : list A) : subseq (filter f l) l.
Proof.
  induction l as [|x l IH]; simpl; [constructor|].
  destruct (f x); now constructor.
Qed.

Lemma subseq_map {A B} (f : A -> B) (l r : list A) :
  subseq l r -> subseq (map f l) (map f r).
Proof. induction 1; simpl; now constructor. Qed.

Lemma subseq_In {A} (l r : list A) (x : A) : subseq l r -> In x l -> In x r.
Proof.
  induction 1 as [|y l r _ IH|y l r _ IH]; simpl; intros Hin; [exact Hin| |].
  - right. now apply IH.
  - destruct Hin as [->|Hin]; [now left|right; now apply IH].
Qed.

Lemma subseq_length {A} (l r : list A) :
  subseq l r -> (List.length l <= List.length r)%nat.
Proof. induction 1; simpl; lia. Qed.

Lemma subseq_NoDup {A} (l r : list A) : subseq l r -> NoDup r -> NoDup l.
Proof.
  induction 1 as [|y l r Hs IH|y l r Hs IH]; intros Hn.
  - constructor.
  - inversion Hn; subst. now apply IH.
  - inversion Hn as [|? ? Hy Hr]; subst. constructor; [|now apply IH].
    intros Hin. apply Hy. now apply (subseq_In l r).
Qed.

Lemma map_filter_flat_map {A B} (f : A -> B) (t : A -> bool) (l : list A) :
  map f (filter t l) = flat_map (fun x => if t x then [f x] else []) l.
Proof.
  induction l as [|x l IH]; [reflexivity|].
  cbn [filter flat_map]. destruct (t x); cbn [map app]; now rewrite IH.
Qed.

(** Two rules of the catalogue that build the same item code on a text
    are the same rule. *)
Lemma rule_item_injective (r r' : Rule) (text : jstr) :
  In r MOCK_RULES -> In r' MOCK_RULES ->
  item (build r text) = item (build r' text) -> r = r'.
Proof.
  unfold MOCK_RULES. intros Hr Hr' E.
  destruct Hr as [<-|[<-|[<-|[<-|[<-|[<-|[]]]]]]];
    destruct Hr' as [<-|[<-|[<-|[<-|[<-|[<-|[]]]]]]];
    try reflexivity;
    cbn [build item telehealthRule suturingRule ecgRule pathologyRule
         imagingRule consultRule] in E;
    repeat match type of E with
           | context [if ?b then _ else _] => destruct b
           end;
    discriminate E.
Qed.

(** X3: the suggestions are those of the rules that fired, in catalogue
    order: the item code of a rule is in the result exactly when the
    rule's test holds of the scanned text, every item code of the result
    comes from such a rule, the codes follow the order of the catalogue,
    there are at most six and none occurs twice. *)
Theorem mockSuggest_items_ordered
  (noteText : jstr) (attachments : option (list Attachment)) :
  let text := scannedText noteText attachments in
  let items := map item (suggestions (mockSuggest noteText attachments)) in
  subseq items
    [item (build telehealthRule text); js "30026"; js "11700"; js "65111";
     js "58503"; item (build consultRule text)]
  /\ NoDup items
  /\ (List.length items <= 6)%nat
  /\ (forall r, In r MOCK_RULES ->
                (test r text = true <-> In (item (build r text)) items))
  /\ (forall c, In c items ->
                exists r, In r MOCK_RULES /\ test r text = true
                          /\ c = item (build r text))
  /\ items
     = flat_map (fun r => if test r text then [item (build r text)] else [])
                MOCK_RULES.
Proof.
  cbn zeta. rewrite mockSuggest_hits.
  set (text := scannedText noteText attachments).
  assert (Hs : subseq (map item (ruleHits text))
                 (map (fun r => item (build r text)) MOCK_RULES)).
  { unfold ruleHits. rewrite map_map. apply subseq_map, subseq_filter. }
  assert (Hfrom : forall c, In c (map item (ruleHits text)) ->
                            exists r, In r MOCK_RULES /\ test r text = true
                                      /\ c = item (build r text)).
  { intros c Hc. apply in_map_iff in Hc as (h & <- & Hh).
    apply ruleHits_In in Hh as (r & Hr & Ht & ->). now exists r. }
  split; [exact Hs|]. split; [|split; [|split; [|split]]].
  - apply (subseq_NoDup _ _ Hs).
    cbn [map MOCK_RULES build item telehealthRule suturingRule ecgRule
         pathologyRule imagingRule consultRule].
    destruct (testBounded [js "20"; js "25"; js "30"] text);
      destruct (testBounded [js "25"; js "30"] text);
      repeat (constructor; [simpl; intuition discriminate|]); constructor.
  - apply subseq_length in Hs. exact Hs.
  - intros r Hr. split.
    + intros Ht. apply in_map_iff. exists (build r text).
      split; [reflexivity|]. apply ruleHits_In. now exists r.
    + intros Hin. destruct (Hfrom _ Hin) as (r' & Hr' & Ht' & E).
      now rewrite (rule_item_injective r r' text Hr Hr' E).
  - exact Hfrom.
  - unfold ruleHits. rewrite map_map. apply map_filter_flat_map.
Qed.

Lemma ruleHits_length (text : jstr) : (List.length (ruleHits text) <= 6)%nat.
Proof.
  unfold ruleHits. rewrite length_map.
  apply (Nat.le_trans _ _ _ (filter_length_le _ MOCK_RULES)). reflexivity.
Qed.

(** X4: the coverage block of every mock response is consistent: between
    0 and 6 suggested, a total of at least 3 and never below the number
    suggested (so the coverage ratio divides by a positive total and is
    at most 1), and the suggested plus the missed never exceed the
    total. *)
Theorem mockSuggest_coverage_consistent
  (noteText : jstr) (attachments : option (list Attachment)) :
  exists c m,
    coverage (mockSuggest noteText attachments) = Some c
    /\ missed c = Some m
    /\ 0 <= eligible_suggested c <= 6
    /\ 3 <= eligible_total c <= 6
    /\ eligible_suggested c <= eligible_total c
    /\ len m = Z.min 2 (Z.max 0 (3 - eligible_suggested c))
    /\ eligible_suggested c + len m <= eligible_total c.
Proof.
  pose proof (ruleHits_length (scannedText noteText attachments)) as Hlen.
  rewrite <- mockSuggest_hits in Hlen.
  set (hits := suggestions (mockSuggest noteText attachments)) in *.
  exists (coverageOf hits),
    (if len hits >=? 3 then [] else slice missedPool 0 (3 - len hits)).
  split; [reflexivity|]. split; [reflexivity|].
  unfold coverageOf. cbn [eligible_suggested eligible_total].
  assert (Hn : 0 <= len hits <= 6) by (unfold len; lia).
  assert (Hm : len (if len hits >=? 3 then []
                    else slice missedPool 0 (3 - len hits))
               = Z.min 2 (Z.max 0 (3 - len hits))).
  { destruct (len hits >=? 3) eqn:E; rewrite Z.geb_leb in E.
    - apply Z.leb_le in E. change (len (@nil jstr)) with 0. lia.
    - apply Z.leb_gt in E.
      assert (H : len hits = 0 \/ len hits = 1 \/ len hits = 2) by lia.
      destruct H as [->|[->| ->]]; reflexivity. }
  rewrite Hm. lia.
Qed.

(** *** Attachments *)

Lemma filter_idem {A} (f : A -> bool) (l : list A) :
  filter f (filter f l) = filter f l.
Proof.
  induction l as [|x l IH]; simpl; [reflexivity|].
  destruct (f x) eqn:E; simpl; [rewrite E|]; now rewrite ?IH.
Qed.

(** X5: attachments whose type does not start with "text" are never
    scanned: dropping them changes neither the scanned text nor the
    suggestions nor the coverage, and a document with only such
    attachments is scanned as the note alone. *)
Theorem mockSuggest_ignores_other_attachments
  (noteText : jstr) (attachments : list Attachment) :
  scannedText noteText (Some attachments)
  = scannedText noteText (Some (filter textual attachments))
  /\ suggestions (mockSuggest noteText (Some attachments))
     = suggestions (mockSuggest noteText (Some (filter textual attachments)))
  /\ coverage (mockSuggest noteText (Some attachments))
     = coverage (mockSuggest noteText (Some (filter textual attachments)))
  /\ (filter textual attachments = [] ->
      scannedText noteText (Some attachments) = noteText
      /\ suggestions (mockSuggest noteText (Some attachments))
         = suggestions (mockSuggest noteText None)).
Proof.
  assert (E : scannedText noteText (Some attachments)
              = scannedText noteText (Some (filter textual attachments))).
  { unfold scannedText. fold textual. now rewrite filter_idem. }
  split; [exact E|]. unfold mockSuggest. cbn [suggestions coverage].
  rewrite E. split; [reflexivity|]. split; [reflexivity|].
  intros Hnone. unfold scannedText. fold textual. rewrite Hnone.
  split; reflexivity.
Qed.

Lemma mockSuggest_ignores_other_attachments_witness :
  suggestions
    (mockSuggest scenarioA
       (Some [mkAttachment (js "scan.png") (js "image/png") (js "consult 25 mins")]))
  = suggestions (mockSuggest scenarioA None).
Proof.
  apply (mockSuggest_ignores_other_attachments scenarioA
           [mkAttachment (js "scan.png") (js "image/png") (js "consult 25 mins")]).
  reflexivity.
Defined.

(** *** Texts too short for any trigger *)

Lemma matchesHere_length (ci : bool) (p s : jstr) :
  matchesHere ci p s = true -> (List.length p <= List.length s)%nat.
Proof.
  revert s. induction p as [|x p IH]; intros s H; simpl; [lia|].
  destruct s as [|c s]; simpl in H; [discriminate|].
  apply andb_true_iff in H as [_ H]. apply IH in H. simpl. lia.
Qed.

Lemma testAlt_length (ci : bool) (alts : list jstr) (s : jstr) :
  testAlt ci alts s = true ->
  exists a, In a alts /\ (List.length a <= List.length s)%nat.
Proof.
  induction s as [|c s IH]; cbn [testAlt]; intros H;
    apply orb_true_iff in H as [H|H]; try discriminate.
  - apply existsb_exists in H as (a & Ha & Hm). exists a.
    split; [exact Ha|]. now apply matchesHere_length in Hm.
  - apply existsb_exists in H as (a & Ha & Hm). exists a.
    split; [exact Ha|]. now apply matchesHere_length in Hm.
  - destruct (IH H) as (a & Ha & Hl). exists a. split; [exact Ha|].
    simpl. lia.
Qed.

Lemma filter_none {A} (f : A -> bool) (l : list A) :
  (forall x, In x l -> f x = false) -> filter f l = [].
Proof.
  induction l as [|x l IH]; intros H; simpl; [reflexivity|].
  rewrite (H x (or_introl eq_refl)). apply IH.
  intros y Hy. apply H. now right.
Qed.

(** X6: a document whose scanned text has fewer than three code units
    (the empty note without text attachments among them) gets no
    suggestion, and its coverage is 0 of 3 with both example labels
    missed. *)
Theorem mockSuggest_short_text
  (noteText : jstr) (attachments : option (list Attachment)) :
  len (scannedText noteText attachments) < 3 ->
  suggestions (mockSuggest noteText attachments) = []
  /\ coverage (mockSuggest noteText attachments)
     = Some (mkCoverage 0 3 (Some missedPool)).
Proof.
  intros Hshort.
  assert (E : suggestions (mockSuggest noteText attachments) = []).
  { rewrite mockSuggest_hits.
    set (text := scannedText noteText attachments) in *.
    assert (Hno : forall r, In r MOCK_RULES -> test r text = false).
    { intros r Hr. destruct (test r text) eqn:Ht; [exfalso|reflexivity].
      unfold MOCK_RULES in Hr.
      destruct Hr as [<-|[<-|[<-|[<-|[<-|[<-|[]]]]]]];
        cbn [test telehealthRule suturingRule ecgRule pathologyRule
             imagingRule consultRule] in Ht;
        apply testAlt_length in Ht as (a & Ha & Hl); simpl in Ha;
        repeat (destruct Ha as [<-|Ha];
                [unfold len in Hshort; simpl in Hl; lia|]);
        destruct Ha. }
    unfold ruleHits. now rewrite (filter_none _ _ Hno). }
  split; [exact E|].
  unfold mockSuggest in *. cbn [suggestions coverage] in *. now rewrite E.
Qed.

Lemma mockSuggest_short_text_witness :
  suggestions (mockSuggest (js "") (Some [])) = []
  /\ coverage (mockSuggest (js "") (Some []))
     = Some (mkCoverage 0 3 (Some missedPool)).
Proof.
  apply mockSuggest_short_text. vm_compute. reflexivity.
Defined.

(* ------------------------------------------------------------------ *)
(** ** Evidence in the note and in the attachments                     *)
(* ------------------------------------------------------------------ *)

(** The scanned text starts with the note. *)
Lemma scannedText_prefix (noteText : jstr) (attachments : option (list Attachment)) :
  exists rest, scannedText noteText attachments = noteText ++ rest.
Proof.
  unfold scannedText. cbn [join].
  destruct (match attachments with Some l => _ | None => [] end) as [|p ps].
  - exists []. now rewrite app_nil_r.
  - eexists. reflexivity.
Qed.

Lemma startsWith_app_r (s rest p : jstr) :
  startsWith s p = true -> startsWith (s ++ rest) p = true.
Proof.
  revert s. induction p as [|x p IH]; intros s H; [reflexivity|].
  destruct s as [|c s]; simpl in *; [discriminate|].
  apply andb_true_iff in H as [-> H]. now apply IH.
Qed.

Lemma startsWith_app_short (s rest p : jstr) :
  startsWith (s ++ rest) p = true -> len p <= len s ->
  startsWith s p = true.
Proof.
  revert s. induction p as [|x p IH]; intros s H Hl; [reflexivity|].
  destruct s as [|c s]; [unfold len in Hl; simpl in Hl; lia|].
  simpl in *. apply andb_true_iff in H as [-> H]. apply IH; [exact H|].
  unfold len in *. simpl in Hl. lia.
Qed.

Lemma occursIn_length (p s : jstr) : occursIn p s -> len p <= len s.
Proof.
  intros (a & b & ->). rewrite !len_app.
  pose proof (len_nonneg a). pose proof (len_nonneg b). lia.
Qed.

Lemma occursIn_tail (p s : jstr) (c : Z) :
  occursIn p (c :: s) -> startsWith (c :: s) p = false -> occursIn p s.
Proof.
  intros (a & b & E) Hs. destruct a as [|x a].
  - simpl in E. rewrite E, startsWith_app in Hs. discriminate.
  - injection E as _ E. now exists a, b.
Qed.

(** Text appended after an occurrence does not move the first
    occurrence. *)
Lemma indexOfFrom_app (s rest p : jstr) (i : Z) :
  occursIn p s -> indexOfFrom (s ++ rest) p i = indexOfFrom s p i.
Proof.
  revert i. induction s as [|c s IH]; intros i Ho.
  - destruct Ho as (a & b & E). destruct a; [|discriminate].
    destruct p; [|discriminate]. destruct rest; reflexivity.
  - cbn [app indexOfFrom]. destruct (startsWith (c :: s) p) eqn:E.
    + change (c :: s ++ rest) with ((c :: s) ++ rest).
      now rewrite (startsWith_app_r _ rest _ E).
    + destruct (startsWith (c :: s ++ rest) p) eqn:E'.
      * apply (startsWith_app_short (c :: s) rest p) in E';
          [congruence|now apply occursIn_length].
      * apply IH. now apply (occursIn_tail p s c).
Qed.

Lemma slice_app_l {A} (s rest : list A) (a b : Z) :
  0 <= a <= b -> b <= len s -> slice (s ++ rest) a b = slice s a b.
Proof.
  intros Hab Hb. pose proof (len_nonneg rest).
  rewrite !slice_in_range by (rewrite ?len_app; lia).
  rewrite skipn_app, firstn_app.
  replace (Z.to_nat (b - a) - List.length (skipn (Z.to_nat a) s))%nat with O.
  - simpl. apply app_nil_r.
  - rewrite length_skipn. unfold len in *. lia.
Qed.

Lemma spansOfNeedle_app (note rest n : jstr) :
  len (toLowerCase note) = len note ->
  occursIn (toLowerCase n) (toLowerCase note) ->
  spansOfNeedle (note ++ rest) (toLowerCase (note ++ rest)) n
  = spansOfNeedle note (toLowerCase note) n.
Proof.
  intros Hlen Ho. unfold spansOfNeedle, indexOf.
  rewrite toLowerCase_app, (indexOfFrom_app _ _ _ 0 Ho).
  fold (indexOf (toLowerCase note) (toLowerCase n)).
  pose proof (proj1 (occursIn_indexOf _ _) Ho) as Hne.
  apply (indexOfFrom_found _ _ 0 ltac:(lia)) in Hne. cbn zeta in Hne.
  fold (indexOf (toLowerCase note) (toLowerCase n)) in Hne.
  destruct Hne as (H0 & Hb & _).
  destruct (indexOf (toLowerCase note) (toLowerCase n) >=? 0); [|reflexivity].
  pose proof (toLowerCase_length n). pose proof (len_nonneg n).
  rewrite slice_app_l by lia. reflexivity.
Qed.

Lemma latin1_dotless (s : jstr) : latin1 s -> dotless s.
Proof.
  unfold latin1, dotless. apply Forall_impl. intros c Hc. lia.
Qed.

Lemma latin1_app_l (a b : jstr) : latin1 (a ++ b) -> latin1 a.
Proof. unfold latin1. intros H. now apply Forall_app in H. Qed.

Lemma latin1_length (s : jstr) : latin1 s -> len (toLowerCase s) = len s.
Proof. intros H. now apply toLowerCase_dotless_length, latin1_dotless. Qed.

(** X7: evidence that is in the note is located in the note: on a
    document whose scanned text (note plus text attachments) and
    needles are Basic Latin and Latin-1, for needles that occur, up to
    case, in the note, the spans found in the scanned text are the
    spans found in the note alone. *)
Theorem evidence_in_note_undisturbed
  (noteText : jstr) (attachments : option (list Attachment))
  (needles : list jstr) :
  latin1 (scannedText noteText attachments) ->
  Forall latin1 needles ->
  Forall (fun n => occursIn (toLowerCase n) (toLowerCase noteText)) needles ->
  findEvidenceSpans (scannedText noteText attachments) needles
  = findEvidenceSpans noteText needles.
Proof.
  intros Hlatin _ Hall.
  destruct (scannedText_prefix noteText attachments) as [rest E].
  rewrite E in *.
  pose proof (latin1_length _ (latin1_app_l _ _ Hlatin)) as Hlen.
  unfold findEvidenceSpans.
  induction Hall as [|n needles Hn _ IH]; [reflexivity|].
  cbn [flat_map]. now rewrite IH, spansOfNeedle_app.
Qed.

Lemma evidence_in_note_undisturbed_witness :
  findEvidenceSpans
    (scannedText scenarioA
       (Some [mkAttachment (js "a.txt") (js "text/plain") (js "Video call, 30 mins")]))
    [js "video"; js "mins"]
  = findEvidenceSpans scenarioA [js "video"; js "mins"].
Proof.
  apply evidence_in_note_undisturbed.
  - vm_compute. repeat (constructor; [split; [discriminate|reflexivity]|]).
    constructor.
  - vm_compute.
    repeat (constructor;
            [repeat (constructor; [split; [discriminate|reflexivity]|]);
             constructor|]).
    constructor.
  - constructor; [|constructor; [|constructor]].
    + exists (js "telehealth 18 mins via "), (js "."). reflexivity.
    + exists (js "telehealth 18 "), (js " via video."). reflexivity.
Defined.

Lemma occursIn_skipn (p s : jstr) (k : nat) :
  startsWith (skipn k s) p = true -> occursIn p s.
Proof.
  intros H. apply startsWith_occursIn in H.
  rewrite <- (firstn_skipn k s). now apply occursIn_app_l.
Qed.

(** X8: evidence found only in a text attachment is still tagged
    "noteText" and collected for highlighting, but its span ends beyond
    the end of the note (on a document whose scanned text and needle are
    Basic Latin and Latin-1). *)
Theorem evidence_from_attachment_outside_note
  (noteText : jstr) (attachments : option (list Attachment))
  (n : jstr) (sp : EvidenceSpan) :
  latin1 (scannedText noteText attachments) ->
  latin1 n ->
  ~ occursIn (toLowerCase n) (toLowerCase noteText) ->
  In sp (findEvidenceSpans (scannedText noteText attachments) [n]) ->
  renderable sp = true /\ len noteText < end_ sp.
Proof.
  intros Hlatin Hlatn Hno Hin.
  destruct (scannedText_prefix noteText attachments) as [rest E].
  rewrite E in Hin, Hlatin.
  pose proof (latin1_length _ (latin1_app_l _ _ Hlatin)) as Hlen.
  pose proof (latin1_length _ Hlatn) as Hn.
  unfold findEvidenceSpans in Hin. cbn [flat_map] in Hin.
  rewrite app_nil_r, toLowerCase_app in Hin.
  set (lower := toLowerCase noteText ++ toLowerCase rest) in *.
  destruct (spansOfNeedle_cases (noteText ++ rest) lower n)
    as [[_ E1]|[Hidx E1]]; rewrite E1 in Hin; [destruct Hin|].
  destruct Hin as [<-|[]]. split; [reflexivity|]. cbn [end_].
  assert (Hne : indexOf lower (toLowerCase n) <> -1) by lia.
  apply (indexOfFrom_found _ _ 0 ltac:(lia)) in Hne. cbn zeta in Hne.
  fold (indexOf lower (toLowerCase n)) in Hne. rewrite Z.sub_0_r in Hne.
  destruct Hne as (_ & _ & Hs & _).
  set (idx := indexOf lower (toLowerCase n)) in *.
  destruct (Z_lt_le_dec (len noteText) (idx + len n)) as [Hlt|Hle];
    [exact Hlt|exfalso].
  apply Hno. apply (occursIn_skipn _ _ (Z.to_nat idx)).
  unfold lower in Hs. rewrite skipn_app in Hs.
  apply (startsWith_app_short _ _ _ Hs).
  unfold len in *. rewrite length_skipn. lia.
Qed.

Lemma evidence_from_attachment_outside_note_witness :
  renderable (mkSpan (js "ECG") 13 16 (Some noteTextField)) = true
  /\ len (js "Seen today.") < 16.
Proof.
  apply (evidence_from_attachment_outside_note (js "Seen today.")
           (Some [mkAttachment (js "r.txt") (js "text/plain") (js "ECG normal")])
           (js "ecg")).
  - vm_compute. repeat (constructor; [split; [discriminate|reflexivity]|]).
    constructor.
  - vm_compute. repeat (constructor; [split; [discriminate|reflexivity]|]).
    constructor.
  - intros Ho. apply occursIn_indexOf in Ho. apply Ho. reflexivity.
  - vm_compute. left. reflexivity.
Defined.

(** X9: on a text and a needle of Basic Latin and Latin-1 characters,
    [findEvidenceSpans] with one needle returns exactly one span when
    the lower-cased needle occurs in the lower-cased text: the span is
    at the first such occurrence, its text is the slice of the text at
    its offsets, in the casing of the text, and lower-cases to the
    lower-cased needle; with no occurrence the result is empty. *)
Theorem findEvidenceSpans_single_latin1 (note needle : jstr) :
  latin1 note -> latin1 needle ->
  (occursIn (toLowerCase needle) (toLowerCase note) ->
   exists S,
     findEvidenceSpans note [needle] = [S]
     /\ slice note (start S) (end_ S) = text S
     /\ toLowerCase (text S) = toLowerCase needle
     /\ (forall pre post,
           toLowerCase note = pre ++ toLowerCase needle ++ post ->
           start S <= len pre))
  /\ (~ occursIn (toLowerCase needle) (toLowerCase note) ->
      findEvidenceSpans note [needle] = []).
Proof.
  intros Hnote Hneedle.
  apply findEvidenceSpans_single_dotless; now apply latin1_dotless.
Qed.

Lemma findEvidenceSpans_single_latin1_witness :
  exists S,
    findEvidenceSpans scenarioA [js "VIDEO"] = [S]
    /\ slice scenarioA (start S) (end_ S) = text S
    /\ toLowerCase (text S) = toLowerCase (js "VIDEO")
    /\ (forall pre post,
          toLowerCase scenarioA = pre ++ toLowerCase (js "VIDEO") ++ post ->
          start S <= len pre).
Proof.
  apply (findEvidenceSpans_single_latin1 scenarioA (js "VIDEO")).
  - vm_compute. repeat (constructor; [split; [discriminate|reflexivity]|]).
    constructor.
  - vm_compute. repeat (constructor; [split; [discriminate|reflexivity]|]).
    constructor.
  - exists (js "telehealth 18 mins via "), (js "."). reflexivity.
Defined.

(** *** What fires on a part fires on the document *)

Lemma matchesHere_app (ci : bool) (p s post : jstr) :
  matchesHere ci p s = true -> matchesHere ci p (s ++ post) = true.
Proof.
  revert s. induction p as [|x p IH]; intros s H; [reflexivity|].
  destruct s as [|c s]; simpl in *; [discriminate|].
  apply andb_true_iff in H as [-> H]. now apply IH.
Qed.

Lemma testAlt_app_r (ci : bool) (alts : list jstr) (s post : jstr) :
  testAlt ci alts s = true -> testAlt ci alts (s ++ post) = true.
Proof.
  induction s as [|c s IH]; intros H.
  - cbn [testAlt] in H. rewrite orb_false_r in H.
    apply existsb_exists in H as (a & Ha & Hm).
    destruct post as [|d post]; cbn [app testAlt]; apply orb_true_iff; left;
      apply existsb_exists; exists a; (split; [exact Ha|]);
      now apply (matchesHere_app ci a [] _).
  - cbn [app testAlt] in *. apply orb_true_iff in H as [H|H];
      apply orb_true_iff; [left|right; now apply IH].
    apply existsb_exists in H as (a & Ha & Hm). apply existsb_exists.
    exists a. split; [exact Ha|]. now apply (matchesHere_app ci a (c :: s)).
Qed.

Lemma testAlt_app_l (ci : bool) (alts : list jstr) (pre s : jstr) :
  testAlt ci alts s = true -> testAlt ci alts (pre ++ s) = true.
Proof.
  intros H. induction pre as [|c pre IH]; [exact H|].
  cbn [app testAlt]. apply orb_true_iff. now right.
Qed.

Lemma join_In (sep p : jstr) (parts : list jstr) :
  In p parts -> exists pre post, join sep parts = pre ++ p ++ post.
Proof.
  induction parts as [|q parts IH]; intros Hin; [destruct Hin|].
  destruct Hin as [->|Hin].
  - destruct parts as [|q' parts].
    + exists [], []. simpl. now rewrite app_nil_r.
    + exists [], (sep ++ join sep (q' :: parts)). reflexivity.
  - destruct (IH Hin) as (pre & post & E).
    destruct parts as [|q' parts]; [destruct Hin|].
    exists (q ++ sep ++ pre), post.
    change (join sep (q :: q' :: parts)) with (q ++ sep ++ join sep (q' :: parts)).
    rewrite E. now rewrite <- !app_assoc.
Qed.

Lemma scannedText_parts
  (noteText : jstr) (attachments : list Attachment) (a : Attachment) :
  (exists pre post, scannedText noteText (Some attachments) = pre ++ noteText ++ post)
  /\ (In a attachments -> textual a = true ->
      exists pre post,
        scannedText noteText (Some attachments) = pre ++ content a ++ post).
Proof.
  unfold scannedText. fold textual. split.
  - apply join_In. now left.
  - intros Hin Ht.
    destruct (join_In [10] ([10] ++ content a)
                (noteText :: map (fun a0 => [10] ++ content a0)
                                 (filter textual attachments)))
      as (pre & post & E).
    + right. apply in_map_iff. exists a. split; [reflexivity|].
      apply filter_In. now split.
    + exists (pre ++ [10]), post. rewrite E. now rewrite <- !app_assoc.
Qed.

Lemma rule_test_alternatives (r : Rule) :
  In r MOCK_RULES -> exists alts, forall s, test r s = testAlt true alts s.
Proof.
  unfold MOCK_RULES. intros [<-|[<-|[<-|[<-|[<-|[<-|[]]]]]]];
    eexists; intros s; reflexivity.
Qed.

(** X21: a rule whose trigger is in the note, or in the content of a
    text attachment, fires on the document: its suggestion, built on
    the scanned text, is in the result. *)
Theorem mockSuggest_scans_attachments
  (noteText : jstr) (attachments : list Attachment) (r : Rule) :
  In r MOCK_RULES ->
  test r noteText = true
  \/ (exists a, In a attachments /\ textual a = true
                /\ test r (content a) = true) ->
  In (build r (scannedText noteText (Some attachments)))
     (suggestions (mockSuggest noteText (Some attachments))).
Proof.
  intros Hr Hfire. rewrite mockSuggest_hits. apply ruleHits_In.
  exists r. split; [exact Hr|]. split; [|reflexivity].
  destruct (rule_test_alternatives r Hr) as [alts Halts].
  rewrite Halts in *.
  destruct Hfire as [Hn|(a & Ha & Ht & Hc)].
  - destruct (proj1 (scannedText_parts noteText attachments
                       (mkAttachment [] [] []))) as (pre & post & ->).
    now apply testAlt_app_l, testAlt_app_r.
  - rewrite Halts in Hc.
    destruct (proj2 (scannedText_parts noteText attachments a) Ha Ht)
      as (pre & post & ->).
    now apply testAlt_app_l, testAlt_app_r.
Qed.

Lemma mockSuggest_scans_attachments_witness :
  In (build ecgRule (js "Seen today." ++ [10; 10] ++ js "ECG normal"))
     (suggestions
        (mockSuggest (js "Seen today.")
           (Some [mkAttachment (js "r.txt") (js "text/plain") (js "ECG normal")]))).
Proof.
  apply (mockSuggest_scans_attachments (js "Seen today.")
           [mkAttachment (js "r.txt") (js "text/plain") (js "ECG normal")]
           ecgRule).
  - simpl. tauto.
  - right. eexists. split; [left; reflexivity|]. split; reflexivity.
Defined.

(* ------------------------------------------------------------------ *)
(** ** More on HighlightedNote                                         *)
(* ------------------------------------------------------------------ *)

Lemma insertByStart_perm (x : EvidenceSpan) (l : list EvidenceSpan) :
  Permutation (x :: l) (insertByStart x l).
Proof.
  induction l as [|y l IH]; simpl; [reflexivity|].
  destruct (start x <=? start y); [reflexivity|].
  rewrite perm_swap. now constructor.
Qed.

Lemma insertByStart_sorted (x : EvidenceSpan) (l : list EvidenceSpan) :
  StronglySorted (fun a b => start a <= start b) l ->
  StronglySorted (fun a b => start a <= start b) (insertByStart x l).
Proof.
  induction 1 as [|y l Hs IH Hy]; simpl.
  - constructor; constructor.
  - destruct (start x <=? start y) eqn:E.
    + apply Z.leb_le in E. constructor; [now constructor|].
      constructor; [exact E|]. revert Hy. apply Forall_impl. intros z Hz. lia.
    + apply Z.leb_gt in E. constructor; [exact IH|].
      apply Forall_insertByStart. split; [lia|exact Hy].
Qed.

Lemma insertByStart_filter (k : Z) (x : EvidenceSpan) (l : list EvidenceSpan) :
  filter (fun sp => start sp =? k) (insertByStart x l)
  = filter (fun sp => start sp =? k) (x :: l).
Proof.
  induction l as [|y l IH]; [reflexivity|].
  cbn [insertByStart]. destruct (start x <=? start y) eqn:E; [reflexivity|].
  apply Z.leb_gt in E. cbn [filter] in *. rewrite IH.
  destruct (Z.eqb_spec (start x) k); destruct (Z.eqb_spec (start y) k);
    try reflexivity. lia.
Qed.

Lemma sortByStart_perm (l : list EvidenceSpan) : Permutation l (sortByStart l).
Proof.
  induction l as [|x l IH]; simpl; [constructor|].
  rewrite <- insertByStart_perm. now constructor.
Qed.

(** X10: the order in which the spans are swept is a stable sort of the
    collected spans by [start]: a rearrangement of them, in ascending
    order of [start], spans with the same [start] in their original
    order. *)
Theorem sortByStart_stable (l : list EvidenceSpan) :
  Permutation l (sortByStart l)
  /\ StronglySorted (fun a b => start a <= start b) (sortByStart l)
  /\ (forall k, filter (fun sp => start sp =? k) (sortByStart l)
                = filter (fun sp => start sp =? k) l).
Proof.
  induction l as [|x l (IHp & IHs & IHf)]; simpl.
  - repeat split; constructor.
  - split; [|split].
    + rewrite <- insertByStart_perm. now constructor.
    + now apply insertByStart_sorted.
    + intros k. rewrite insertByStart_filter. cbn [filter]. now rewrite IHf.
Qed.

Lemma marked_app (a b : list Part) : marked (a ++ b) = marked a ++ marked b.
Proof. unfold marked. apply filter_app. Qed.

(** The part [sweepStep] marks for a span. *)
Lemma sweep_marked (text : jstr) (ordered : list EvidenceSpan) :
  forall (parts : list Part) (i : Z),
    marked (fst (fold_left (sweepStep text) ordered (parts, i)))
    = marked parts
      ++ map (fun sp => mkPart (slice text (start sp)
                                      (Z.min (end_ sp) (len text)))
                               (Some true)) ordered.
Proof.
  induction ordered as [|sp rest IH]; intros parts i.
  - simpl. now rewrite app_nil_r.
  - cbn [fold_left map]. unfold sweepStep at 2. rewrite IH.
    rewrite marked_app. cbn [marked filter mark app].
    rewrite <- app_assoc. f_equal.
    destruct (start sp >? i); [|reflexivity].
    rewrite marked_app. simpl. apply app_nil_r.
Qed.

(** X11: every span is highlighted, once and in sweep order: the marked
    segments are the slices of the sorted spans, each cut at the end of
    the text, whether or not spans overlap or repeat. *)
Theorem noteParts_marks_every_span (text : jstr) (spans : list EvidenceSpan) :
  marked (noteParts text spans true)
  = map (fun sp => mkPart (slice text (start sp) (Z.min (end_ sp) (len text)))
                          (Some true))
        (sortByStart spans)
  /\ List.length (marked (noteParts text spans true)) = List.length spans.
Proof.
  assert (E : marked (noteParts text spans true)
              = map (fun sp => mkPart (slice text (start sp)
                                             (Z.min (end_ sp) (len text)))
                                      (Some true))
                    (sortByStart spans)).
  { unfold noteParts. cbn [negb orb].
    destruct (len spans =? 0) eqn:E0.
    - apply Z.eqb_eq in E0. destruct spans; [reflexivity|].
      unfold len in E0. simpl in E0. lia.
    - pose proof (sweep_marked text (sortByStart spans) [] 0) as H.
      destruct (fold_left (sweepStep text) (sortByStart spans) ([], 0))
        as [parts i]. cbn [fst] in H.
      destruct (i <? len text); [|exact H].
      rewrite marked_app, H. simpl. apply app_nil_r. }
  split; [exact E|]. rewrite E, length_map.
  symmetry. apply Permutation_length. apply sortByStart_perm.
Qed.

(** *** The note text is never lost *)

Lemma subseq_app {A} (l1 r1 l2 r2 : list A) :
  subseq l1 r1 -> subseq l2 r2 -> subseq (l1 ++ l2) (r1 ++ r2).
Proof.
  induction 1; simpl; intros H2;
    [exact H2|apply subseq_skip; auto|apply subseq_keep; auto].
Qed.

Lemma subseq_nil_l {A} (r : list A) : subseq [] r.
Proof. induction r; now constructor. Qed.

Lemma subseq_app_r {A} (l r x : list A) : subseq l r -> subseq l (r ++ x).
Proof.
  intros H. rewrite <- (app_nil_r l). apply subseq_app; [exact H|].
  apply subseq_nil_l.
Qed.

Lemma subseq_skipn {A} (l : list A) (k : nat) : subseq (skipn k l) l.
Proof.
  revert l. induction k as [|k IH]; intros l; [apply subseq_refl|].
  destruct l as [|x l]; [constructor|]. simpl. constructor. apply IH.
Qed.

Lemma slice_split {A} (l : list A) (a b c : Z) :
  0 <= a <= b -> b <= c -> c <= len l ->
  slice l a c = slice l a b ++ slice l b c.
Proof.
  intros Ha Hb Hc. rewrite !slice_in_range by lia.
  replace (skipn (Z.to_nat b) l)
    with (skipn (Z.to_nat (b - a)) (skipn (Z.to_nat a) l))
    by (rewrite skipn_skipn; f_equal; lia).
  rewrite firstn_skipn_firstn. f_equal. lia.
Qed.

(** A slice taken inside another is contained in it. *)
Lemma subseq_slice (text : jstr) (a a' b' b : Z) :
  0 <= a <= a' -> a' <= b' -> b' <= b -> b <= len text ->
  subseq (slice text a' b') (slice text a b).
Proof.
  intros H1 H2 H3 H4.
  rewrite (slice_split text a a' b) by lia.
  rewrite (slice_split text a' b' b) by lia.
  rewrite <- (app_nil_l (slice text a' b')) at 1.
  apply subseq_app; [apply subseq_nil_l|].
  apply subseq_app_r, subseq_refl.
Qed.

Lemma firstn_extend (text : jstr) (m b : Z) :
  0 <= m <= b -> b <= len text ->
  firstn (Z.to_nat b) text = firstn (Z.to_nat m) text ++ slice text m b.
Proof. intros H1 H2. symmetry. now apply firstn_slice. Qed.

Section Coverage.

Variable text : jstr.

(** The sweep with the furthest end reached so far, [m]: the text up to
    [m] is contained, in order, in what has been emitted. *)
Lemma sweep_covers (ordered : list EvidenceSpan) :
  forall (parts : list Part) (i m : Z),
    0 <= i <= m -> m <= len text ->
    subseq (firstn (Z.to_nat m) text) (renderedText parts) ->
    Forall (withinBounds text) ordered ->
    exists m',
      snd (fold_left (sweepStep text) ordered (parts, i)) <= m'
      /\ 0 <= snd (fold_left (sweepStep text) ordered (parts, i))
      /\ m' <= len text
      /\ subseq (firstn (Z.to_nat m') text)
                (renderedText (fst (fold_left (sweepStep text) ordered
                                              (parts, i)))).
Proof.
  induction ordered as [|sp rest IH]; intros parts i m Hi Hm Hsub Hb.
  - exists m. simpl. repeat split; try lia. exact Hsub.
  - inversion Hb as [|? ? [Hs He] Hb']; subst.
    cbn [fold_left]. unfold sweepStep at 2 4 6. cbn iota beta.
    rewrite Z.min_l by lia.
    apply (IH _ _ (Z.max m (end_ sp))); [lia|lia| |exact Hb'].
    rewrite renderedText_snoc. cbn [str].
    destruct (Z_le_gt_dec (end_ sp) m) as [Hle|Hgt].
    + rewrite Z.max_l by lia. apply subseq_app_r.
      destruct (start sp >? i); [|exact Hsub].
      rewrite renderedText_snoc. now apply subseq_app_r.
    + rewrite Z.max_r by lia.
      rewrite (firstn_extend text m (end_ sp)) by lia.
      destruct (Z_le_gt_dec (start sp) m) as [Hsm|Hsm].
      * apply subseq_app; [|apply subseq_slice; lia].
        destruct (start sp >? i); [|exact Hsub].
        rewrite renderedText_snoc. now apply subseq_app_r.
      * destruct (start sp >? i) eqn:E;
          [|rewrite Z.gtb_ltb in E; apply Z.ltb_ge in E; lia].
        rewrite renderedText_snoc. cbn [str]. rewrite <- app_assoc.
        apply subseq_app; [exact Hsub|].
        destruct (Z_le_gt_dec (start sp) (end_ sp)) as [Hse|Hse].
        -- rewrite (slice_split text m (start sp) (end_ sp)) by lia.
           apply subseq_app; [apply subseq_slice; lia|apply subseq_refl].
        -- apply subseq_app_r. apply subseq_slice; lia.
Qed.

End Coverage.

(** X12: highlighting never loses note text: for any spans whose
    offsets lie within the note, overlapping or not, the note text is
    contained, in order, in the text the segments spell out. *)
Theorem noteParts_keeps_text
  (text : jstr) (spans : list EvidenceSpan) (show : bool) :
  Forall (withinBounds text) spans ->
  subseq text (renderedText (noteParts text spans show)).
Proof.
  intros Hb. unfold noteParts.
  destruct (negb show || (len spans =? 0)).
  - unfold renderedText. simpl. rewrite app_nil_r. apply subseq_refl.
  - pose proof (sweep_covers text (sortByStart spans) [] 0 0) as H.
    destruct (fold_left (sweepStep text) (sortByStart spans) ([], 0))
      as [parts i]. cbn [fst snd] in H.
    destruct H as (m & Him & Hi0 & Hm & Hsub).
    + lia.
    + apply len_nonneg.
    + constructor.
    + now apply Forall_sortByStart.
    + destruct (i <? len text) eqn:E.
      * rewrite renderedText_snoc. cbn [str].
        rewrite <- (firstn_skipn (Z.to_nat m) text) at 1.
        apply subseq_app; [exact Hsub|].
        unfold sliceFrom. rewrite relIndex_in_range by (apply Z.ltb_lt in E; lia).
        replace (skipn (Z.to_nat m) text)
          with (skipn (Z.to_nat (m - i)) (skipn (Z.to_nat i) text)).
        -- apply subseq_skipn.
        -- rewrite skipn_skipn. f_equal. lia.
      * apply Z.ltb_ge in E. assert (m = len text) as -> by lia.
        unfold len in Hsub. rewrite Nat2Z.id, firstn_all in Hsub. exact Hsub.
Qed.

Lemma noteParts_keeps_text_witness :
  subseq scenarioA
    (renderedText (noteParts scenarioA (collectEvidenceSpans sessionA) true)).
Proof.
  apply noteParts_keeps_text.
  vm_compute. repeat constructor; discriminate.
Defined.

(** *** From the mock engine to the highlights *)

Lemma findEvidenceSpans_spans_ok (text : jstr) (needles : list jstr) :
  Forall (fun n => n <> []) needles ->
  len (toLowerCase text) = len text ->
  Forall (fun sp => spanInvariant text sp /\ renderable sp = true)
         (findEvidenceSpans text needles).
Proof.
  intros Hne Hlen. apply Forall_forall. intros sp Hin.
  unfold findEvidenceSpans in Hin. apply in_flat_map in Hin as (n & Hn & Hsp).
  rewrite Forall_forall in Hne. split.
  - now apply (spansOfNeedle_invariant text n sp (Hne n Hn)).
  - destruct (spansOfNeedle_cases text (toLowerCase text) n) as [[_ E]|[_ E]];
      rewrite E in Hsp; [destruct Hsp|].
    destruct Hsp as [<-|[]]. reflexivity.
Qed.

Lemma rule_evidence_ok (r : Rule) (s : jstr) :
  In r MOCK_RULES ->
  len (toLowerCase s) = len s ->
  Forall (fun sp => spanInvariant s sp /\ renderable sp = true)
         (evidence (build r s)).
Proof.
  intros Hr Hlen. unfold MOCK_RULES in Hr.
  destruct Hr as [<-|[<-|[<-|[<-|[<-|[<-|[]]]]]]];
    cbn [build evidence telehealthRule suturingRule ecgRule pathologyRule
         imagingRule consultRule];
    (apply findEvidenceSpans_spans_ok; [|exact Hlen]);
    repeat (constructor; [discriminate|]); constructor.
Qed.

Lemma filter_all {A} (f : A -> bool) (l : list A) :
  Forall (fun x => f x = true) l -> filter f l = l.
Proof.
  induction 1 as [|x l Hx _ IH]; simpl; [reflexivity|]. now rewrite Hx, IH.
Qed.

Lemma mockTurns_spans_ok (note : jstr) (messages : list Message) :
  len (toLowerCase note) = len note ->
  mockTurnsOn note messages ->
  Forall (spanInvariant note) (collectEvidenceSpans messages).
Proof.
  intros Hlen Hturns. unfold collectEvidenceSpans.
  induction Hturns as [|m messages Hm _ IH]; [constructor|].
  cbn [flat_map]. apply Forall_app. split; [|exact IH].
  destruct m as [| ? ? response ?]; [constructor|]. rewrite Hm.
  rewrite mockSuggest_hits.
  change (scannedText note None) with note.
  apply Forall_forall. intros sp Hin.
  apply in_flat_map in Hin as (h & Hh & Hsp).
  apply filter_In in Hsp as [Hsp _].
  apply ruleHits_In in Hh as (r & Hr & _ & ->).
  pose proof (rule_evidence_ok r note Hr Hlen) as Hok.
  rewrite Forall_forall in Hok. now apply Hok.
Qed.

(** X13: after any number of mock turns on the same note without
    scanned attachments (a note that lower-casing leaves at its length), the
    highlighted segments show exactly the evidence texts cited, in the
    order of their position in the note. *)
Theorem HighlightedNote_shows_evidence (note : jstr) (messages : list Message) :
  len (toLowerCase note) = len note ->
  mockTurnsOn note messages ->
  map str (marked (HighlightedNote note messages true))
  = map text (sortByStart (collectEvidenceSpans messages)).
Proof.
  intros Hlen Hturns. unfold HighlightedNote.
  pose proof (mockTurns_spans_ok note messages Hlen Hturns) as Hok.
  assert (E : marked (noteParts note (collectEvidenceSpans messages) true)
              = map (fun sp => mkPart (slice note (start sp)
                                             (Z.min (end_ sp) (len note)))
                                      (Some true))
                    (sortByStart (collectEvidenceSpans messages))).
  { unfold noteParts. cbn [negb orb].
    destruct (len (collectEvidenceSpans messages) =? 0) eqn:E0.
    - apply Z.eqb_eq in E0.
      destruct (collectEvidenceSpans messages); [reflexivity|].
      unfold len in E0. simpl in E0. lia.
    - pose proof (sweep_marked note
                    (sortByStart (collectEvidenceSpans messages)) [] 0) as H.
      destruct (fold_left (sweepStep note)
                  (sortByStart (collectEvidenceSpans messages)) ([], 0))
        as [parts i]. cbn [fst] in H.
      destruct (i <? len note); [|exact H].
      rewrite marked_app, H. simpl. apply app_nil_r. }
  rewrite E, map_map. cbn [str].
  apply map_ext_in. intros sp Hin.
  apply (proj2 (Forall_sortByStart _ _)) in Hok.
  rewrite Forall_forall in Hok. destruct (Hok sp Hin) as (H0 & H1 & H2 & H3).
  rewrite Z.min_l by lia. now symmetry.
Qed.

Lemma HighlightedNote_shows_evidence_witness :
  map str (marked (HighlightedNote scenarioA sessionA true))
  = map text (sortByStart (collectEvidenceSpans sessionA)).
Proof.
  apply HighlightedNote_shows_evidence.
  - reflexivity.
  - constructor; [exact I|]. constructor; [reflexivity|]. constructor.
Defined.

(* ------------------------------------------------------------------ *)
(** ** slashJoin                                                       *)
(* ------------------------------------------------------------------ *)

Lemma dropTrailingSlash_snoc (b : jstr) : dropTrailingSlash (b ++ [47]) = b.
Proof.
  induction b as [|c b IH]; [reflexivity|].
  cbn [app dropTrailingSlash]. rewrite IH.
  destruct (b ++ [47]) eqn:E; [destruct b; discriminate|reflexivity].
Qed.

Lemma dropTrailingSlash_other (b : jstr) :
  last b 0 <> 47 -> dropTrailingSlash b = b.
Proof.
  induction b as [|c b IH]; intros H; [reflexivity|].
  destruct b as [|d b].
  - simpl in *. destruct (Z.eqb_spec c 47); [contradiction|reflexivity].
  - change (dropTrailingSlash (c :: d :: b)) with (c :: dropTrailingSlash (d :: b)).
    now rewrite IH.
Qed.

(** The dev self-tests of the source. *)
Example slashJoin_self_tests :
  slashJoin (js "http://localhost:8000") (js "/mbs-codes")
  = js "http://localhost:8000/mbs-codes"
  /\ slashJoin (js "http://localhost:8000/") (js "/mbs-codes")
     = js "http://localhost:8000/mbs-codes"
  /\ slashJoin (js "") (js "/x") = js "/x".
Proof. repeat split. Qed.



(** X16: the four spellings of a junction give one URL: with or without
    a trailing slash on the base, with or without a leading slash on the
    path. *)
Theorem slashJoin_normalises (base path : jstr) :
  base <> [] ->
  last base 0 <> 47 ->
  startsWith path (js "/") = false ->
  slashJoin base path = base ++ js "/" ++ path
  /\ slashJoin (base ++ js "/") path = base ++ js "/" ++ path
  /\ slashJoin base (js "/" ++ path) = base ++ js "/" ++ path
  /\ slashJoin (base ++ js "/") (js "/" ++ path) = base ++ js "/" ++ path.
Proof.
  intros Hb Hl Hp.
  assert (E1 : forall q, slashJoin base q
                         = base ++ (if startsWith q (js "/") then q
                                    else js "/" ++ q)).
  { intros q. destruct base as [|c base]; [contradiction|].
    unfold slashJoin. now rewrite dropTrailingSlash_other. }
  assert (E2 : forall q, slashJoin (base ++ js "/") q
                         = base ++ (if startsWith q (js "/") then q
                                    else js "/" ++ q)).
  { intros q. unfold slashJoin.
    destruct (base ++ js "/") eqn:E; [destruct base; discriminate|].
    rewrite <- E. change (js "/") with [47]. now rewrite dropTrailingSlash_snoc. }
  rewrite !E1, !E2, Hp.
  change (startsWith (js "/" ++ path) (js "/")) with true.
  repeat split.
Qed.

Lemma slashJoin_normalises_witness :
  slashJoin (js "http://localhost:8000") (js "mbs-codes")
  = js "http://localhost:8000/mbs-codes"
  /\ slashJoin (js "http://localhost:8000/") (js "mbs-codes")
     = js "http://localhost:8000/mbs-codes"
  /\ slashJoin (js "http://localhost:8000") (js "/mbs-codes")
     = js "http://localhost:8000/mbs-codes"
  /\ slashJoin (js "http://localhost:8000/") (js "/mbs-codes")
     = js "http://localhost:8000/mbs-codes".
Proof.
  apply (slashJoin_normalises (js "http://localhost:8000") (js "mbs-codes"));
    [discriminate|vm_compute; discriminate|reflexivity].
Defined.

(* ------------------------------------------------------------------ *)
(** ** Episode management                                              *)
(* ------------------------------------------------------------------ *)

Module EpisodeFacts.

Import Episodes.

Section WithAny.

Context {any : Type}.
Variable truthy : any -> bool.
Variable jsonCopy : any -> any.

Local Abbreviation Episode := (@Episode any).
Local Abbreviation AppState := (@AppState any).

Lemma findEpisode_Some (eps : list Episode) (i : jstr) (e : Episode) :
  findEpisode eps i = Some e -> In e eps /\ id e = i.
Proof.
  unfold findEpisode. intros H. apply find_some in H as [Hin Hid].
  split; [exact Hin|now apply streq_eq].
Qed.

Lemma findEpisode_listed (eps : list Episode) (i : jstr) :
  (exists e, In e eps /\ id e = i) -> exists e, findEpisode eps i = Some e.
Proof.
  intros (e & Hin & Hid). unfold findEpisode.
  destruct (find (fun e0 => streq (id e0) i) eps) as [e'|] eqn:E; [now exists e'|].
  exfalso. pose proof (find_none _ _ E e Hin) as H. cbn beta in H.
  assert (streq (id e) i = true) by now apply streq_eq. congruence.
Qed.

Lemma activeListed_iff (st : AppState) :
  activeListed st <-> exists e, activeEpisode st = Some e.
Proof.
  unfold activeListed, activeEpisode. split.
  - apply findEpisode_listed.
  - intros [e H]. exists e. now apply findEpisode_Some.
Qed.

Lemma updateWhere_ids (i : jstr) (f : Episode -> Episode) (eps : list Episode) :
  (forall e, id (f e) = id e) ->
  map id (updateWhere i f eps) = map id eps.
Proof.
  intros Hf. unfold updateWhere. rewrite map_map. apply map_ext.
  intros e. destruct (streq (id e) i); [apply Hf|reflexivity].
Qed.

Lemma listed_ids (eps : list Episode) (i : jstr) :
  (exists e, In e eps /\ id e = i) <-> In i (map id eps).
Proof.
  rewrite in_map_iff. split; intros (e & H1 & H2); exists e; tauto.
Qed.

Lemma activeListed_ids (st : AppState) :
  activeListed st <-> In (activeEpisodeId st) (map id (episodes st)).
Proof. apply listed_ids. Qed.

(** X17: no user action on the episodes loses the active episode: if
    the active id is the id of a listed episode before a selection, a
    rename, a save, an attachment removal, a new episode, a duplication
    or a deletion, it is so afterwards; the list is then not empty and
    the reload of the drafts finds its episode. *)
Theorem step_keeps_active_listed (st st' : AppState) :
  activeListed st ->
  step truthy jsonCopy st st' ->
  activeListed st'
  /\ episodes st' <> []
  /\ exists st'', syncDrafts st' = Some st''.
Proof.
  intros Hinv Hstep.
  assert (H : activeListed st').
  { destruct Hstep as [st ep Hep| st | st | st idx | st u now | st u
                      | st epId ok u now].
    - exists ep. now split.
    - unfold saveTitle. destruct (trim (titleDraft st)); [exact Hinv|].
      apply activeListed_ids. cbn [episodes activeEpisodeId].
      rewrite updateWhere_ids by reflexivity. now apply activeListed_ids.
    - apply activeListed_ids. cbn [onSaveEpisode withEpisodes episodes
                                    activeEpisodeId].
      rewrite updateWhere_ids by reflexivity. now apply activeListed_ids.
    - apply activeListed_ids. cbn [removeAttachment withEpisodes episodes
                                    activeEpisodeId].
      rewrite updateWhere_ids by reflexivity. now apply activeListed_ids.
    - eexists. split; [left; reflexivity|reflexivity].
    - unfold duplicateEpisode. destruct (activeEpisode st); [|exact Hinv].
      eexists. split; [left; reflexivity|reflexivity].
    - unfold deleteEpisode.
      destruct (findEpisode (episodes st) epId); [|exact Hinv].
      destruct ok; cbn [negb]; [|exact Hinv].
      destruct (streq epId (activeEpisodeId st)) eqn:E.
      + destruct (filter _ (episodes st)) as [|first rest] eqn:Ef.
        * eexists. split; [left; reflexivity|reflexivity].
        * exists first. split; [now left|reflexivity].
      + destruct Hinv as (a & Hin & Hid). exists a. split; [|exact Hid].
        cbn [withEpisodes episodes]. apply filter_In. split; [exact Hin|].
        destruct (streq (id a) epId) eqn:E'; [|reflexivity].
        apply streq_eq in E'. rewrite Hid in E'. subst epId.
        assert (streq (activeEpisodeId st) (activeEpisodeId st) = true)
          by now apply streq_eq.
        congruence. }
  split; [exact H|]. split.
  - destruct H as (e & Hin & _). intros E. rewrite E in Hin. destruct Hin.
  - apply activeListed_iff in H as [e He]. unfold syncDrafts. rewrite He.
    eexists. reflexivity.
Qed.



Lemma dropIndexFrom_spec {A} (l : list A) (k idx : Z) :
  dropIndexFrom k idx l
  = if (k <=? idx) && (idx <? k + len l)
    then firstn (Z.to_nat (idx - k)) l ++ skipn (S (Z.to_nat (idx - k))) l
    else l.
Proof.
  revert k. induction l as [|x l IH]; intros k.
  - cbn [dropIndexFrom]. destruct ((k <=? idx) && (idx <? k + len [])) eqn:E;
      [|reflexivity].
    apply andb_true_iff in E as [E1 E2]. apply Z.leb_le in E1.
    apply Z.ltb_lt in E2. unfold len in E2. simpl in E2. lia.
  - cbn [dropIndexFrom]. rewrite IH.
    assert (Hl : len (x :: l) = len l + 1) by (unfold len; simpl; lia).
    pose proof (len_nonneg l) as Hn. rewrite Hl.
    destruct (Z.eqb_spec k idx) as [->|Hk].
    + destruct (Z.leb_spec (idx + 1) idx); [lia|]. cbn [andb].
      destruct (Z.leb_spec idx idx); [|lia].
      destruct (Z.ltb_spec idx (idx + (len l + 1))); [|lia].
      cbn [andb]. rewrite Z.sub_diag. reflexivity.
    + destruct (Z.leb_spec (k + 1) idx); destruct (Z.leb_spec k idx);
        destruct (Z.ltb_spec idx (k + 1 + len l));
        destruct (Z.ltb_spec idx (k + (len l + 1)));
        cbn [andb]; try lia; try reflexivity.
      replace (Z.to_nat (idx - k)) with (S (Z.to_nat (idx - (k + 1)))) by lia.
      reflexivity.
Qed.

(** X20: removing attachment [idx] of the active episode takes out the
    attachment at that position and no other (an index outside the list
    removes nothing); an episode without an attachment list gets the
    empty list; id, title and note of the episode stay. *)
Theorem removeAttachment_effect (idx : Z) (st : AppState) (e : Episode) :
  activeEpisode st = Some e ->
  let l := match attachments e with Some l => l | None => [] end in
  exists e',
    activeEpisode (removeAttachment idx st) = Some e'
    /\ id e' = id e /\ title e' = title e /\ noteText e' = noteText e
    /\ (0 <= idx < len l ->
        attachments e'
        = Some (firstn (Z.to_nat idx) l ++ skipn (S (Z.to_nat idx)) l)
        /\ exists l', attachments e' = Some l' /\ len l' = len l - 1)
    /\ (idx < 0 \/ len l <= idx -> attachments e' = Some l).
Proof.
  intros He. cbn zeta. unfold activeEpisode, findEpisode in *.
  cbn [removeAttachment withEpisodes episodes activeEpisodeId].
  unfold updateWhere.
  assert (Hfind : forall eps,
             find (fun e0 : Episode => streq (id e0) (activeEpisodeId st)) eps
             = Some e ->
             find (fun e0 : Episode => streq (id e0) (activeEpisodeId st))
               (map (fun e0 : Episode =>
                       if streq (id e0) (activeEpisodeId st)
                       then mkEpisode (id e0) (title e0) (noteText e0)
                              (Some (dropIndexFrom 0 idx
                                       match attachments e0 with
                                       | Some l => l
                                       | None => []
                                       end))
                              (structured e0)
                       else e0) eps)
             = Some (mkEpisode (id e) (title e) (noteText e)
                       (Some (dropIndexFrom 0 idx
                                match attachments e with
                                | Some l => l
                                | None => []
                                end))
                       (structured e))).
  { induction eps as [|x eps IH]; intros H; [discriminate|].
    cbn [find map] in *.
    destruct (streq (id x) (activeEpisodeId st)) eqn:E.
    - injection H as ->. cbn [id]. now rewrite E.
    - rewrite E. now apply IH. }
  rewrite (Hfind _ He). eexists. split; [reflexivity|].
  cbn [id title noteText attachments]. repeat split.
  - rewrite dropIndexFrom_spec.
    destruct (Z.leb_spec 0 idx); [|lia].
    destruct (Z.ltb_spec idx (0 + len (match attachments e with
                                       | Some l => l | None => [] end)));
      [|lia].
    cbn [andb]. now rewrite Z.sub_0_r.
  - rewrite dropIndexFrom_spec.
    destruct (Z.leb_spec 0 idx); [|lia].
    destruct (Z.ltb_spec idx (0 + len (match attachments e with
                                       | Some l => l | None => [] end)));
      [|lia].
    cbn [andb]. rewrite Z.sub_0_r. eexists. split; [reflexivity|].
    unfold len in *. rewrite length_app, length_firstn, length_skipn. lia.
  - intros Hout. rewrite dropIndexFrom_spec.
    destruct (Z.leb_spec 0 idx); destruct (Z.ltb_spec idx (0 + len
      (match attachments e with Some l => l | None => [] end)));
      cbn [andb]; try reflexivity. lia.
Qed.

End WithAny.

Lemma step_keeps_active_listed_witness :
  activeListed
    (deleteEpisode (js "ep-gp-procedure-ecg") true (js "k3x9") (js "today")
       initialState)
  /\ episodes (deleteEpisode (js "ep-gp-procedure-ecg") true (js "k3x9")
                 (js "today") initialState) <> []
  /\ exists st'',
       syncDrafts (deleteEpisode (js "ep-gp-procedure-ecg") true (js "k3x9")
                     (js "today") initialState) = Some st''.
Proof.
  apply (step_keeps_active_listed (fun _ => true) (fun v => v) initialState).
  - exists sampleEpisode. split; [now left|reflexivity].
  - apply step_delete.
Defined.



Lemma removeAttachment_effect_witness :
  exists e',
    activeEpisode (removeAttachment 0 imagedState) = Some e'
    /\ attachments e'
       = Some [mkAttachment (js "ecg.png") (js "image/png")
                            (js "data:image/png;base64,BBBB")].
Proof.
  destruct (removeAttachment_effect 0 imagedState imagedEpisode eq_refl)
    as (e' & He & _ & _ & _ & Hin & _).
  exists e'. split; [exact He|].
  apply Hin. vm_compute. split; [discriminate|reflexivity].
Defined.

End EpisodeFacts.
